(** * Shallow embedding of the EDL playback backend
      (src/native/juce-backend/src/main.cpp, the [USE_JUCE] build).

    Modelling choices:
    - A C++ [double] is [double] below: a finite value is an exact rational
      ([Fin q]); the three special values [PInf], [NInf] and [NaN] are kept,
      with the IEEE-754 rules for them.  Rounding and overflow of finite values
      are not modelled, and signed zeros are identified.
    - The [Backend] object, its JUCE members that the code touches
      (transport position, gain, resampling ratio, reader) and the global
      [State g] are one record, threaded through a small state monad; every
      event written by [emit] is appended to the [out] list.
    - The naive JSON tokenizer of [parseClipsFromJsonPayload] is abstracted:
      a raw clip or segment carries the value [extractNumber] returns for each
      numeric key (NaN when the key is missing or [std::stod] fails). *)

From Stdlib Require Import QArith Qabs Qminmax Lqa Psatz List String ZArith Bool Lia Permutation Sorted Ascii.
Import ListNotations.
Open Scope Q_scope.

(** ** IEEE doubles without rounding *)

Inductive double : Type :=
| Fin (q : Q)
| PInf
| NInf
| NaN.

Definition isfinite (x : double) : bool :=
  match x with Fin _ => true | _ => false end.

Definition Qltb (a b : Q) : bool := negb (Qle_bool b a).

(** [x == y] *)
Definition deqb (x y : double) : bool :=
  match x, y with
  | Fin a, Fin b => Qeq_bool a b
  | PInf, PInf | NInf, NInf => true
  | _, _ => false
  end.

(** [x < y] *)
Definition dlt (x y : double) : bool :=
  match x, y with
  | Fin a, Fin b => Qltb a b
  | NaN, _ | _, NaN => false
  | Fin _, PInf | NInf, PInf | NInf, Fin _ => true
  | _, _ => false
  end.

(** [x <= y] *)
Definition dle (x y : double) : bool := dlt x y || deqb x y.

Definition dneg (x : double) : double :=
  match x with Fin a => Fin (- a) | PInf => NInf | NInf => PInf | NaN => NaN end.

Definition dadd (x y : double) : double :=
  match x, y with
  | Fin a, Fin b => Fin (a + b)
  | NaN, _ | _, NaN => NaN
  | PInf, NInf | NInf, PInf => NaN
  | PInf, _ | _, PInf => PInf
  | NInf, _ | _, NInf => NInf
  end.

Definition dsub (x y : double) : double := dadd x (dneg y).

(** Sign of a non-NaN value: [Gt], [Eq] (zero) or [Lt]. *)
Definition dsign (x : double) : comparison :=
  match x with
  | Fin a => Qcompare a 0
  | PInf => Gt
  | NInf => Lt
  | NaN => Eq
  end.

Definition inf_of_sign (c : comparison) : double :=
  match c with Gt => PInf | Lt => NInf | Eq => NaN end.

Definition sign_mul (c d : comparison) : comparison :=
  match c, d with
  | Eq, _ | _, Eq => Eq
  | Gt, Gt | Lt, Lt => Gt
  | _, _ => Lt
  end.

Definition dmul (x y : double) : double :=
  match x, y with
  | Fin a, Fin b => Fin (a * b)
  | NaN, _ | _, NaN => NaN
  | _, _ => inf_of_sign (sign_mul (dsign x) (dsign y))
  end.

Definition ddiv (x y : double) : double :=
  match x, y with
  | Fin a, Fin b => if Qeq_bool b 0 then inf_of_sign (dsign x) else Fin (a / b)
  | NaN, _ | _, NaN => NaN
  | Fin _, _ => Fin 0
  | _, Fin _ => inf_of_sign (sign_mul (dsign x) (match dsign y with Eq => Gt | c => c end))
  | _, _ => NaN
  end.

Definition dabs (x : double) : double :=
  match x with Fin a => Fin (Qabs a) | NInf => PInf | v => v end.

(** [std::min], [std::max] and [std::clamp] as the standard library
    specifies them (comparisons with [<] only). *)
Definition dmin (a b : double) : double := if dlt b a then b else a.
Definition dmax (a b : double) : double := if dlt a b then b else a.
Definition clamp (v lo hi : double) : double :=
  if dlt v lo then lo else if dlt hi v then hi else v.

(** ** Time sanitisation (main.cpp, lines 43-58) *)

Definition kMinDuration : Q := 1e-4.
Definition kMaxReasonableTime : Q := 24 * 60 * 60.

Definition sanitizeTime (value fallback : double) : double :=
  if negb (isfinite value) then fallback
  else if dlt value (Fin 0) then Fin 0
  else if dlt (Fin kMaxReasonableTime) value then Fin kMaxReasonableTime
  else value.

Definition sanitizeDuration (value : double) : double :=
  if negb (isfinite value) then Fin 0
  else if dlt value (Fin kMinDuration) then Fin 0
  else value.

(** ** Segments and the time mapper (struct Segment, Backend::originalToEdited,
       Backend::editedToOriginal) *)

Record Segment := mkSegment {
  seg_type : string;
  seg_start : double;
  seg_end : double;
  seg_dur : double;
  seg_text : string;
  seg_originalStart : double;   (* -1 when not provided *)
  seg_originalEnd : double
}.

Definition hasOriginal (s : Segment) : bool :=
  dle (Fin 0) (seg_originalStart s) && dle (Fin 0) (seg_originalEnd s).

(** [os] and [oe] as every loop over [segments] computes them. *)
Definition seg_os (s : Segment) : double :=
  if hasOriginal s then sanitizeTime (seg_originalStart s) (seg_start s)
  else sanitizeTime (seg_start s) (Fin 0).

Definition seg_oe (s : Segment) : double :=
  if hasOriginal s then sanitizeTime (seg_originalEnd s) (seg_end s)
  else sanitizeTime (seg_end s) (Fin 0).

Definition seg_odur (s : Segment) : double := sanitizeDuration (dsub (seg_oe s) (seg_os s)).
Definition seg_edur (s : Segment) : double := sanitizeDuration (seg_dur s).

(** [if (odur <= 0.0 || edur <= 0.0) continue;] *)
Definition seg_skipped (s : Segment) : bool :=
  dle (seg_odur s) (Fin 0) || dle (seg_edur s) (Fin 0).

(** The [for] loop of [originalToEdited]; [pos] is the sanitised input. *)
Fixpoint o2e_loop (pos accEdited : double) (segs : list Segment) : double :=
  match segs with
  | [] => accEdited
  | s :: rest =>
      let os := seg_os s in
      let odur := seg_odur s in
      let edur := seg_edur s in
      if seg_skipped s then o2e_loop pos accEdited rest
      else if dlt pos os then accEdited
      else if dlt pos (dadd os odur) then
        let r := clamp (ddiv (dsub pos os) odur) (Fin 0) (Fin 1) in
        dadd accEdited (dmul r edur)
      else o2e_loop pos (dadd accEdited edur) rest
  end.

Definition originalToEdited (segs : list Segment) (orig : double) : double :=
  match segs with
  | [] => sanitizeTime orig (Fin 0)
  | _ => o2e_loop (sanitizeTime orig (Fin 0)) (Fin 0) segs
  end.

(** The [for] loop of [editedToOriginal]: [None] when it runs to the end. *)
Fixpoint e2o_loop (target accEdited : double) (segs : list Segment) : option double :=
  match segs with
  | [] => None
  | s :: rest =>
      let os := seg_os s in
      let odur := seg_odur s in
      let edur := seg_edur s in
      if seg_skipped s then e2o_loop target accEdited rest
      else if dle target (dadd accEdited edur) then
        let r := clamp (ddiv (dsub target accEdited) edur) (Fin 0) (Fin 1) in
        Some (dadd os (dmul r odur))
      else e2o_loop target (dadd accEdited edur) rest
  end.

(** [segments.back()] (only used on a non-empty vector). *)
Definition back (segs : list Segment) (d : Segment) : Segment := last segs d.

Definition editedToOriginal (segs : list Segment) (ed : double) : double :=
  match segs with
  | [] => sanitizeTime ed (Fin 0)
  | s0 :: _ =>
      let target := sanitizeTime ed (Fin 0) in
      match e2o_loop target (Fin 0) segs with
      | Some o => o
      | None =>
          let last := back segs s0 in
          if hasOriginal last then sanitizeTime (seg_originalEnd last) (seg_end last)
          else sanitizeTime (seg_end last) (Fin 0)
      end
  end.

(** ** Clips (struct Clip) and the numeric part of [parseClipsFromJsonPayload] *)

Record Clip := mkClip {
  clip_id : string;
  startSec : double;
  endSec : double;
  originalStartSec : double;   (* -1 when not provided *)
  originalEndSec : double;
  speaker : string;
  clip_type : string;
  clip_segments : list Segment
}.

Definition clip_hasOriginal (c : Clip) : bool :=
  dle (Fin 0) (originalStartSec c) && dle (Fin 0) (originalEndSec c).

(** What [extractNumber] and [extractString] return for the keys of one
    segment object, and of one clip object, of the payload. *)
Record RawSegment := mkRawSegment {
  raw_type : string;
  raw_startSec : double;
  raw_endSec : double;
  raw_originalStartSec : double;
  raw_originalEndSec : double;
  raw_text : string
}.

Record RawClip := mkRawClip {
  rawc_id : string;
  rawc_startSec : double;
  rawc_endSec : double;
  rawc_originalStartSec : double;
  rawc_originalEndSec : double;
  rawc_speaker : string;
  rawc_type : string;
  rawc_segments : list RawSegment
}.

(** [x == x], false exactly on NaN *)
Definition notNaN (x : double) : bool := deqb x x.

Definition minusOne : double := Fin (-1).

(** The body of the inner [while] loop over the segment objects:
    [None] is a [continue]. *)
Definition parseSegment (rs : RawSegment) : option Segment :=
  let segStartRaw := raw_startSec rs in
  let segEndRaw := raw_endSec rs in
  if negb (notNaN segStartRaw && notNaN segEndRaw) then None
  else
    let segStartSafe := sanitizeTime segStartRaw (Fin 0) in
    let segEndSafe := sanitizeTime segEndRaw segStartSafe in
    let segDurSafe := sanitizeDuration (dsub segEndSafe segStartSafe) in
    if dle segDurSafe (Fin 0) then None
    else
      let os0 := raw_originalStartSec rs in
      let oe0 := raw_originalEndSec rs in
      let '(os, oe) :=
        if notNaN os0 && notNaN oe0 then
          let os := sanitizeTime os0 (Fin 0) in
          let oe := sanitizeTime oe0 os in
          if dle (sanitizeDuration (dsub oe os)) (Fin 0) then (minusOne, minusOne)
          else (os, oe)
        else (minusOne, minusOne) in
      Some (mkSegment (raw_type rs) segStartSafe (dadd segStartSafe segDurSafe)
              segDurSafe (raw_text rs) os oe).

Fixpoint filter_some {A B} (f : A -> option B) (l : list A) : list B :=
  match l with
  | [] => []
  | x :: r => match f x with Some y => y :: filter_some f r | None => filter_some f r end
  end.

(** The body of the loop over the clip objects. *)
Definition parseClip (rc : RawClip) : option Clip :=
  let cstart := sanitizeTime (rawc_startSec rc) (Fin 0) in
  let cend := sanitizeTime (rawc_endSec rc) cstart in
  let clipDur := sanitizeDuration (dsub cend cstart) in
  if dle clipDur (Fin 0) then None
  else
    let os0 := rawc_originalStartSec rc in
    let oe0 := rawc_originalEndSec rc in
    let '(os, oe) :=
      if negb (notNaN os0 && notNaN oe0) then (minusOne, minusOne)
      else
        let os := sanitizeTime os0 cstart in
        let oe := sanitizeTime oe0 os in
        if dle (sanitizeDuration (dsub oe os)) (Fin 0) then (minusOne, minusOne)
        else (os, oe) in
    let segs := filter_some parseSegment (rawc_segments rc) in
    match segs with
    | [] => None
    | _ => Some (mkClip (rawc_id rc) cstart cend os oe (rawc_speaker rc) (rawc_type rc) segs)
    end.

Definition parseClipsFromJsonPayload (raw : list RawClip) : list Clip :=
  filter_some parseClip raw.

(** ** Flattening of [updateEdl] (main.cpp, lines 926-991) *)

(** The first choice of a flattened segment's original interval
    (lines 961-981): the segment's own, interpolated from the clip's, or the
    edited interval. *)
Definition flatOriginals (clipTimelineDur : double) (clipHasOriginal : bool)
    (clipOriginalStart clipOriginalDur : double) (seg : Segment)
    (segStartTimeline segEndTimeline segTimelineDur : double) : double * double :=
  if hasOriginal seg then
    let segOrigStart := sanitizeTime (seg_originalStart seg) segStartTimeline in
    let segOrigEnd := sanitizeTime (seg_originalEnd seg) segOrigStart in
    let segOrigDur := sanitizeDuration (dsub segOrigEnd segOrigStart) in
    if dlt (Fin 0) segOrigDur then (segOrigStart, dadd segOrigStart segOrigDur)
    else (segStartTimeline, segEndTimeline)
  else if clipHasOriginal && dlt (Fin 0) clipOriginalDur then
    let ratio := dmin (Fin 1) (dmax (Fin 0) (ddiv (seg_start seg) clipTimelineDur)) in
    let mappedStart := dadd clipOriginalStart (dmul ratio clipOriginalDur) in
    let fos := sanitizeTime mappedStart clipOriginalStart in
    (fos, sanitizeTime (dadd fos segTimelineDur) (dadd fos segTimelineDur))
  else (segStartTimeline, segEndTimeline).

(** One iteration of the loop over [clip.segments]; [None] is a [continue]. *)
Definition flattenSegment (clipTimelineStart clipTimelineDur : double)
    (clipHasOriginal : bool) (clipOriginalStart clipOriginalDur : double)
    (seg : Segment) : option Segment :=
  let segDur := sanitizeDuration (seg_dur seg) in
  if dle segDur (Fin 0) then None
  else
    let segStartTimeline := sanitizeTime (dadd clipTimelineStart (seg_start seg)) clipTimelineStart in
    let segEndTimeline := sanitizeTime (dadd segStartTimeline segDur) (dadd segStartTimeline segDur) in
    let segTimelineDur := sanitizeDuration (dsub segEndTimeline segStartTimeline) in
    if dle segTimelineDur (Fin 0) then None
    else
      let '(os, oe) :=
        flatOriginals clipTimelineDur clipHasOriginal clipOriginalStart clipOriginalDur seg
          segStartTimeline segEndTimeline segTimelineDur in
      (* [if (sanitizeDuration(flatSeg.originalEnd - flatSeg.originalStart) <= 0.0)] *)
      let '(os, oe) :=
        if dle (sanitizeDuration (dsub oe os)) (Fin 0) then (segStartTimeline, segEndTimeline)
        else (os, oe) in
      Some (mkSegment (seg_type seg) segStartTimeline (dadd segStartTimeline segTimelineDur)
              segTimelineDur (seg_text seg) os oe).

(** One iteration of the loop over [clips]. *)
Definition flattenClip (clip : Clip) : list Segment :=
  let clipTimelineStart := sanitizeTime (startSec clip) (Fin 0) in
  let clipTimelineEnd := sanitizeTime (endSec clip) clipTimelineStart in
  let clipTimelineDur := sanitizeDuration (dsub clipTimelineEnd clipTimelineStart) in
  if dle clipTimelineDur (Fin 0) then []
  else
    let clipHasOriginal := clip_hasOriginal clip in
    let clipOriginalStart :=
      if clipHasOriginal then sanitizeTime (originalStartSec clip) clipTimelineStart else Fin 0 in
    let clipOriginalEnd :=
      if clipHasOriginal then sanitizeTime (originalEndSec clip) clipOriginalStart else Fin 0 in
    let clipOriginalDur :=
      if clipHasOriginal then sanitizeDuration (dsub clipOriginalEnd clipOriginalStart) else Fin 0 in
    filter_some (flattenSegment clipTimelineStart clipTimelineDur clipHasOriginal
                   clipOriginalStart clipOriginalDur) (clip_segments clip).

Definition flattenClips (clips : list Clip) : list Segment :=
  flat_map flattenClip clips.

(** The comparator given to [std::sort]. *)
Definition segLess (a b : Segment) : bool :=
  if deqb (seg_start a) (seg_start b) then dlt (seg_end a) (seg_end b)
  else dlt (seg_start a) (seg_start b).

(** [std::sort] is modelled by an insertion sort with the same comparator
    (the order of equivalent elements is unspecified in C++ as well). *)
Fixpoint insertSeg (x : Segment) (l : list Segment) : list Segment :=
  match l with
  | [] => [x]
  | y :: r => if segLess y x then y :: insertSeg x r else x :: y :: r
  end.

Fixpoint sortSegments (l : list Segment) : list Segment :=
  match l with
  | [] => []
  | x :: r => insertSeg x (sortSegments r)
  end.

(** Contiguity detection: [for (i = 1; i < clips.size() && i < 5; i++)]. *)
Fixpoint gapMatches (prev : Clip) (rest : list Clip) (i : nat) : nat :=
  match rest with
  | [] => 0
  | c :: r =>
      if Nat.ltb i 5 then
        (if dlt (dabs (dsub (startSec c) (endSec prev))) (Fin 0.01) then 1 else 0)%nat
        + gapMatches c r (S i)
      else 0
  end.

Definition detectContiguous (clips : list Clip) : bool :=
  if Nat.ltb 1 (List.length clips) then
    match clips with
    | [] => false
    | c0 :: r => Nat.leb 2 (gapMatches c0 r 1)
    end
  else false.

(** The fallback segment [updateEdl] installs (lines 1006-1024). *)
Definition fullFileSegment (d : double) : Segment :=
  mkSegment "speech" (Fin 0) d d "" (Fin 0) d.

(** ** Events and the backend state *)

Inductive Event : Type :=
| EvLoaded (id : string) (durationSec sampleRate : double) (channels : Z)
| EvState (id : string) (playing : bool)
| EvPosition (id : string) (editedSec originalSec : double)
| EvEnded (id : string)
| EvEdlApplied (id : string) (revision : Z) (wordCount spacerCount totalSegments : nat)
    (mode : string)
| EvError (message : string).

(** [juce::AudioTransportSource]: position in original seconds, running
    flag and gain. *)
Record Transport := mkTransport {
  tr_position : double;
  tr_playing : bool;
  tr_gain : double
}.

(** The global [State g]. *)
Record GState := mkG {
  g_id : string;
  g_playing : bool;
  g_editedSec : double;
  g_durationSec : double
}.

Record Backend := mkBackend {
  readerSource : bool;          (* [readerSource != nullptr] *)
  transport : Transport;
  resamplingRatio : double;     (* [resampler.setResamplingRatio] *)
  playbackRate : double;
  clips : list Clip;
  segments : list Segment;
  isContiguousTimeline : bool;
  contiguousInitialized : bool;
  currentRevision : Z;
  lastWordSegments : nat;
  lastSpacerSegments : nat;
  timerIsRunning : bool;
  g : GState;
  out : list Event              (* everything [emit] has written, oldest first *)
}.

Definition set_readerSource v s := mkBackend v (transport s) (resamplingRatio s) (playbackRate s) (clips s) (segments s) (isContiguousTimeline s) (contiguousInitialized s) (currentRevision s) (lastWordSegments s) (lastSpacerSegments s) (timerIsRunning s) (g s) (out s).
Definition set_transport v s := mkBackend (readerSource s) v (resamplingRatio s) (playbackRate s) (clips s) (segments s) (isContiguousTimeline s) (contiguousInitialized s) (currentRevision s) (lastWordSegments s) (lastSpacerSegments s) (timerIsRunning s) (g s) (out s).
Definition set_resamplingRatio v s := mkBackend (readerSource s) (transport s) v (playbackRate s) (clips s) (segments s) (isContiguousTimeline s) (contiguousInitialized s) (currentRevision s) (lastWordSegments s) (lastSpacerSegments s) (timerIsRunning s) (g s) (out s).
Definition set_playbackRate v s := mkBackend (readerSource s) (transport s) (resamplingRatio s) v (clips s) (segments s) (isContiguousTimeline s) (contiguousInitialized s) (currentRevision s) (lastWordSegments s) (lastSpacerSegments s) (timerIsRunning s) (g s) (out s).
Definition set_clips v s := mkBackend (readerSource s) (transport s) (resamplingRatio s) (playbackRate s) v (segments s) (isContiguousTimeline s) (contiguousInitialized s) (currentRevision s) (lastWordSegments s) (lastSpacerSegments s) (timerIsRunning s) (g s) (out s).
Definition set_segments v s := mkBackend (readerSource s) (transport s) (resamplingRatio s) (playbackRate s) (clips s) v (isContiguousTimeline s) (contiguousInitialized s) (currentRevision s) (lastWordSegments s) (lastSpacerSegments s) (timerIsRunning s) (g s) (out s).
Definition set_isContiguousTimeline v s := mkBackend (readerSource s) (transport s) (resamplingRatio s) (playbackRate s) (clips s) (segments s) v (contiguousInitialized s) (currentRevision s) (lastWordSegments s) (lastSpacerSegments s) (timerIsRunning s) (g s) (out s).
Definition set_contiguousInitialized v s := mkBackend (readerSource s) (transport s) (resamplingRatio s) (playbackRate s) (clips s) (segments s) (isContiguousTimeline s) v (currentRevision s) (lastWordSegments s) (lastSpacerSegments s) (timerIsRunning s) (g s) (out s).
Definition set_currentRevision v s := mkBackend (readerSource s) (transport s) (resamplingRatio s) (playbackRate s) (clips s) (segments s) (isContiguousTimeline s) (contiguousInitialized s) v (lastWordSegments s) (lastSpacerSegments s) (timerIsRunning s) (g s) (out s).
Definition set_lastWordSegments v s := mkBackend (readerSource s) (transport s) (resamplingRatio s) (playbackRate s) (clips s) (segments s) (isContiguousTimeline s) (contiguousInitialized s) (currentRevision s) v (lastSpacerSegments s) (timerIsRunning s) (g s) (out s).
Definition set_lastSpacerSegments v s := mkBackend (readerSource s) (transport s) (resamplingRatio s) (playbackRate s) (clips s) (segments s) (isContiguousTimeline s) (contiguousInitialized s) (currentRevision s) (lastWordSegments s) v (timerIsRunning s) (g s) (out s).
Definition set_timerIsRunning v s := mkBackend (readerSource s) (transport s) (resamplingRatio s) (playbackRate s) (clips s) (segments s) (isContiguousTimeline s) (contiguousInitialized s) (currentRevision s) (lastWordSegments s) (lastSpacerSegments s) v (g s) (out s).
Definition set_g v s := mkBackend (readerSource s) (transport s) (resamplingRatio s) (playbackRate s) (clips s) (segments s) (isContiguousTimeline s) (contiguousInitialized s) (currentRevision s) (lastWordSegments s) (lastSpacerSegments s) (timerIsRunning s) v (out s).
Definition set_out v s := mkBackend (readerSource s) (transport s) (resamplingRatio s) (playbackRate s) (clips s) (segments s) (isContiguousTimeline s) (contiguousInitialized s) (currentRevision s) (lastWordSegments s) (lastSpacerSegments s) (timerIsRunning s) (g s) v.

Definition set_tr_position v t := mkTransport v (tr_playing t) (tr_gain t).
Definition set_tr_playing v t := mkTransport (tr_position t) v (tr_gain t).
Definition set_tr_gain v t := mkTransport (tr_position t) (tr_playing t) v.

Definition set_g_id v st := mkG v (g_playing st) (g_editedSec st) (g_durationSec st).
Definition set_g_playing v st := mkG (g_id st) v (g_editedSec st) (g_durationSec st).
Definition set_g_editedSec v st := mkG (g_id st) (g_playing st) v (g_durationSec st).
Definition set_g_durationSec v st := mkG (g_id st) (g_playing st) (g_editedSec st) v.

(** *** A state monad over [Backend] *)

Definition M (A : Type) : Type := Backend -> A * Backend.

Definition ret {A} (a : A) : M A := fun s => (a, s).
Definition bind {A B} (m : M A) (k : A -> M B) : M B :=
  fun s => let '(a, s') := m s in k a s'.
Definition get : M Backend := fun s => (s, s).
Definition modify (f : Backend -> Backend) : M unit := fun s => (tt, f s).
Definition exec (m : M unit) (s : Backend) : Backend := snd (m s).

Notation "x <- m ;; k" := (bind m (fun x => k))
  (at level 61, m at next level, right associativity).
Notation "m ;; k" := (bind m (fun _ => k)) (at level 61, right associativity).

Definition modify_g (f : GState -> GState) : M unit := modify (fun s => set_g (f (g s)) s).
Definition modify_transport (f : Transport -> Transport) : M unit :=
  modify (fun s => set_transport (f (transport s)) s).

Definition emit (e : Event) : M unit := modify (fun s => set_out (out s ++ [e]) s).

Definition emitState : M unit :=
  st <- get ;; emit (EvState (g_id (g st)) (g_playing (g st))).

Definition emitPositionFromTransport : M unit :=
  st <- get ;;
  let es := sanitizeTime (g_editedSec (g st)) (Fin 0) in
  let os := sanitizeTime (editedToOriginal (segments st) es) (Fin 0) in
  emit (EvPosition (g_id (g st)) es os).

(** ** Backend operations *)

(** The file given to [load]: missing, not decodable, or decodable with the
    reader's sample rate, length in samples and channel count. *)
Inductive AudioFile : Type :=
| FileMissing
| Unreadable
| Readable (sampleRate : double) (lengthInSamples : Z) (numChannels : Z).

Definition noAudio : M unit := emit (EvError "No audio loaded").

(** [Backend::load]; [transportSource.setSource] stops the transport and the
    new reader starts at position 0. *)
Definition load (id : string) (file : AudioFile) : M unit :=
  modify_g (set_g_id id) ;;
  match file with
  | FileMissing => emit (EvError "Audio file not found")
  | Unreadable => emit (EvError "Failed to open audio file")
  | Readable srRaw lengthInSamples numChannels =>
      let sr := if dlt (Fin 0) srRaw then srRaw else Fin 48000 in
      let duration :=
        if (0 <? lengthInSamples)%Z && dlt (Fin 0) sr
        then ddiv (Fin (inject_Z lengthInSamples)) sr else Fin 0 in
      modify (set_readerSource true) ;;
      modify_transport (fun t => set_tr_playing false (set_tr_position (Fin 0) t)) ;;
      modify_g (set_g_durationSec (sanitizeTime duration (Fin 0))) ;;
      modify (set_playbackRate (Fin 1)) ;;
      modify (set_resamplingRatio (Fin 1)) ;;
      modify (set_segments
                (if dlt (Fin 0) duration
                 then [mkSegment "speech" (Fin 0) duration duration "" minusOne minusOne]
                 else [])) ;;
      modify_g (set_g_editedSec (Fin 0)) ;;
      modify_g (set_g_playing false) ;;
      st <- get ;;
      emit (EvLoaded (g_id (g st)) (g_durationSec (g st)) sr numChannels) ;;
      emitState
  end.

Definition play : M unit :=
  st <- get ;;
  if negb (readerSource st) then noAudio
  else
    modify_transport (set_tr_playing true) ;;
    modify_g (set_g_playing true) ;;
    emitState ;;
    st <- get ;;
    if timerIsRunning st then ret tt else modify (set_timerIsRunning true).

Definition pause : M unit :=
  st <- get ;;
  if negb (readerSource st) then noAudio
  else
    modify_transport (set_tr_playing false) ;;
    modify_g (set_g_playing false) ;;
    emitState.

Definition stop : M unit :=
  st <- get ;;
  if negb (readerSource st) then noAudio
  else
    modify_transport (set_tr_playing false) ;;
    modify_transport (set_tr_position (Fin 0)) ;;
    modify_g (set_g_editedSec (Fin 0)) ;;
    modify_g (set_g_playing false) ;;
    emitState ;;
    emitPositionFromTransport.

Definition seek (editedSec : double) : M unit :=
  st <- get ;;
  if negb (readerSource st) then noAudio
  else
    let orig := editedToOriginal (segments st) editedSec in
    modify_transport (set_tr_position orig) ;;
    modify_g (set_g_editedSec editedSec) ;;
    emitPositionFromTransport.

Definition sanitizeRate (rate : double) : double :=
  let safeRate := if isfinite rate then rate else Fin 1 in
  let safeRate := if dle safeRate (Fin 0) then Fin 1 else safeRate in
  clamp safeRate (Fin 0.25) (Fin 4).

Definition setRate (rate : double) : M unit :=
  let safeRate := sanitizeRate rate in
  modify (set_playbackRate safeRate) ;;
  modify (set_resamplingRatio safeRate).

Definition sanitizeGain (gain : double) : double :=
  let safeGain := if isfinite gain then gain else Fin 1 in
  clamp safeGain (Fin 0) (Fin 2).

(** [transportSource.setGain((float) safeGain)]; the float conversion is not
    modelled. *)
Definition setVolume (gain : double) : M unit :=
  modify_transport (set_tr_gain (sanitizeGain gain)).

Definition queryState : M unit := emitState ;; emitPositionFromTransport.

Definition isSpacer (s : Segment) : bool := String.eqb (seg_type s) "spacer".

Definition updateEdl (newClips : list Clip) (revision : Z) : M unit :=
  modify (set_clips newClips) ;;
  modify (set_currentRevision revision) ;;
  let allSegs := flat_map clip_segments newClips in
  let totalSegments := List.length allSegs in
  let spacerSegments := List.length (filter isSpacer allSegs) in
  let wordSegments := List.length (filter (fun s => negb (isSpacer s)) allSegs) in
  modify (set_lastWordSegments wordSegments) ;;
  modify (set_lastSpacerSegments spacerSegments) ;;
  let contiguous := detectContiguous newClips in
  modify (set_isContiguousTimeline contiguous) ;;
  (if contiguous then modify (set_contiguousInitialized false) else ret tt) ;;
  let flat := flattenClips newClips in
  modify (set_segments (match flat with [] => [] | _ => sortSegments flat end)) ;;
  st <- get ;;
  (if isContiguousTimeline st && (match segments st with [] => true | _ => false end) then
     modify (set_isContiguousTimeline false) ;;
     (if dlt (Fin 0) (g_durationSec (g st))
      then modify (set_segments [fullFileSegment (g_durationSec (g st))])
      else ret tt)
   else ret tt) ;;
  st <- get ;;
  let mode := if isContiguousTimeline st then "contiguous"%string else "standard"%string in
  emit (EvEdlApplied (g_id (g st)) revision wordSegments spacerSegments totalSegments mode).

(** ** The command router of [main] *)

Inductive Command : Type :=
| CmdLoad (id : string) (file : AudioFile)
| CmdPlay
| CmdPause
| CmdStop
| CmdSeek (timeSec : double)
| CmdSetRate (rate : double)
| CmdSetVolume (value : double)
| CmdQueryState
| CmdUpdateEdl (payload : list RawClip) (revision : Z).

Definition handle (c : Command) : M unit :=
  match c with
  | CmdLoad id f => modify_g (set_g_id id) ;; load id f
  | CmdPlay => play
  | CmdPause => pause
  | CmdStop => stop
  | CmdSeek t => seek t
  | CmdSetRate r => setRate r
  | CmdSetVolume v => setVolume v
  | CmdQueryState => queryState
  | CmdUpdateEdl payload rev => updateEdl (parseClipsFromJsonPayload payload) rev
  end.

Fixpoint run (cs : list Command) : M unit :=
  match cs with
  | [] => ret tt
  | c :: r => handle c ;; run r
  end.

(** The backend after construction. *)
Definition initialBackend : Backend :=
  mkBackend false (mkTransport (Fin 0) false (Fin 1)) (Fin 1) (Fin 1) [] [] false false 0%Z
    0 0 false (mkG "" false (Fin 0) (Fin 60)) [].

(** ** Timer-driven playback (Backend::hiResTimerCallback and the two
       timeline handlers, main.cpp lines 1043-1304)

    [transportSource.getCurrentPosition()] is the transport position of the
    state at the tick; the audio thread's advance between ticks is not
    modelled. *)

(** The loop of [Backend::segmentFor]: the index of the first segment whose
    (non-empty) original span holds [pos]. *)
Fixpoint segmentFor_loop (pos : double) (i : nat) (segs : list Segment) : option nat :=
  match segs with
  | [] => None
  | s :: rest =>
      let os := seg_os s in
      let span := seg_odur s in
      if dle span (Fin 0) then segmentFor_loop pos (S i) rest
      else if dle os pos && dlt pos (dadd os span) then Some i
      else segmentFor_loop pos (S i) rest
  end.

(** [Backend::segmentFor]; [None] is the C++ [-1]. *)
Definition segmentFor (segs : list Segment) (orig : double) : option nat :=
  segmentFor_loop (sanitizeTime orig (Fin 0)) 0 segs.

(** [Backend::endPlayback] *)
Definition endPlayback : M unit :=
  modify_transport (set_tr_playing false) ;;
  modify_g (set_g_playing false) ;;
  st <- get ;;
  emit (EvEnded (g_id (g st))).

(** The search "after last segment" of the standard handler: the original
    start of the first segment that starts after [pos]. *)
Fixpoint findNextOs (segs : list Segment) (pos : double) : option double :=
  match segs with
  | [] => None
  | s :: rest => if dlt pos (seg_os s) then Some (seg_os s) else findNextOs rest pos
  end.

(** The [while (loopCount < maxLoops)] loop of
    [handleStandardTimelinePlayback], with [remaining = maxLoops - loopCount]
    (maxLoops = 10); [front] is [segments.front()].  The result is [None]
    when the handler returned after [endPlayback], and [Some pos] when the
    loop ran out and the handler goes on to emit a position.  The block
    commented "Position is within a segment" sits after the [continue]s and
    [return]s of the [segIdx < 0] branch and is never reached, so a found
    segment only counts one more iteration. *)
Fixpoint stdLoop (remaining : nat) (front : Segment) (segs : list Segment) (pos : double)
  : M (option double) :=
  match remaining with
  | O => ret (Some pos)
  | S r =>
      match segmentFor segs pos with
      | None =>
          let firstOs := seg_os front in
          if dlt pos firstOs then
            modify_transport (set_tr_position firstOs) ;; stdLoop r front segs firstOs
          else
            match findNextOs segs pos with
            | Some os => modify_transport (set_tr_position os) ;; stdLoop r front segs os
            | None => endPlayback ;; ret None
            end
      | Some _ =>
          (* [if (loopCount >= maxLoops) { endPlayback(); return; }] *)
          match r with
          | O => endPlayback ;; ret None
          | _ => stdLoop r front segs pos
          end
      end
  end.

(** [Backend::handleStandardTimelinePlayback] *)
Definition handleStandardTimelinePlayback : M unit :=
  st <- get ;;
  let pos := sanitizeTime (tr_position (transport st)) (Fin 0) in
  match segments st with
  | front :: _ =>
      r <- stdLoop 10 front (segments st) pos ;;
      match r with
      | None => ret tt
      | Some p =>
          modify_g (set_g_editedSec (originalToEdited (segments st) p)) ;;
          emitPositionFromTransport
      end
  | [] =>
      if dle (g_durationSec (g st)) pos then endPlayback
      else
        modify_g (set_g_editedSec (originalToEdited [] pos)) ;;
        emitPositionFromTransport
  end.

(** [oStart], [oEnd] and [oDur] of the contiguous handler. *)
Definition c_oStart (s : Segment) : double := sanitizeTime (seg_originalStart s) (seg_start s).
Definition c_oEnd (s : Segment) : double := sanitizeTime (seg_originalEnd s) (seg_end s).
Definition c_oDur (s : Segment) : double := sanitizeDuration (dsub (c_oEnd s) (c_oStart s)).

(** [cStart], [cEnd] and [cDur] of the contiguous handler. *)
Definition c_cStart (s : Segment) : double := sanitizeTime (seg_start s) (Fin 0).
Definition c_cEnd (s : Segment) : double := sanitizeTime (seg_end s) (c_cStart s).
Definition c_cDur (s : Segment) : double := sanitizeDuration (dsub (c_cEnd s) (c_cStart s)).

(** The first loop of [handleContiguousTimelinePlayback]: the first segment
    with an original interval of positive length that holds [pos]. *)
Fixpoint contFind (segs : list Segment) (pos : double) (i : nat) : option (nat * Segment) :=
  match segs with
  | [] => None
  | s :: rest =>
      if hasOriginal s then
        if dle (c_oDur s) (Fin 0) then contFind rest pos (S i)
        else if dle (c_oStart s) pos && dlt pos (dadd (c_oStart s) (c_oDur s)) then Some (i, s)
        else contFind rest pos (S i)
      else contFind rest pos (S i)
  end.

(** The second loop: the first segment with an original interval that
    starts after [pos]. *)
Fixpoint contNext (segs : list Segment) (pos : double) : option Segment :=
  match segs with
  | [] => None
  | s :: rest =>
      if negb (hasOriginal s) then contNext rest pos
      else if dlt pos (c_oStart s) then Some s
      else contNext rest pos
  end.

(** [Backend::handleContiguousTimelinePlayback] *)
Definition handleContiguousTimelinePlayback : M unit :=
  st <- get ;;
  let pos := sanitizeTime (tr_position (transport st)) (Fin 0) in
  let segs := segments st in
  match segs with
  | [] => endPlayback
  | s0 :: _ =>
      if negb (contiguousInitialized st) && hasOriginal s0 then
        let targetOrig := sanitizeTime (editedToOriginal segs (g_editedSec (g st))) (Fin 0) in
        modify_transport (set_tr_position targetOrig) ;;
        modify (set_contiguousInitialized true) ;;
        emitPositionFromTransport
      else
        match contFind segs pos 0 with
        | Some (i, seg) =>
            let oStart := c_oStart seg in
            let oDur := c_oDur seg in
            if dle oDur (Fin 0) then endPlayback
            else
              let cStart := c_cStart seg in
              let cDur := c_cDur seg in
              if dle cDur (Fin 0) then endPlayback
              else
                let relativePos := clamp (ddiv (dsub pos oStart) oDur) (Fin 0) (Fin 1) in
                let contiguousTime := dadd cStart (dmul relativePos cDur) in
                modify_g (set_g_editedSec contiguousTime) ;;
                if dle (dsub (dadd oStart oDur) (Fin 0.05)) pos then
                  match nth_error segs (S i) with
                  | Some sn =>
                      if hasOriginal sn then
                        modify_transport (set_tr_position (c_oStart sn)) ;;
                        emitPositionFromTransport
                      else endPlayback
                  | None => endPlayback
                  end
                else emitPositionFromTransport
        | None =>
            match contNext segs pos with
            | Some sn =>
                modify_transport (set_tr_position (c_oStart sn)) ;;
                modify_g (set_g_editedSec (sanitizeTime (seg_start sn) (Fin 0))) ;;
                emitPositionFromTransport
            | None => endPlayback
            end
        end
  end.

(** [Backend::hiResTimerCallback] *)
Definition hiResTimerCallback : M unit :=
  st <- get ;;
  if negb (g_playing (g st)) then ret tt
  else if isContiguousTimeline st then handleContiguousTimelinePlayback
  else handleStandardTimelinePlayback.

(** [n] firings of the high-resolution timer. *)
Fixpoint ticks (n : nat) : M unit :=
  match n with O => ret tt | S k => hiResTimerCallback ;; ticks k end.

(** ** The mock backend (built without [USE_JUCE]): [timerThread] and
       [handleLine] over the global [State g] *)

Record MockState := mkMock {
  m_g : GState;
  m_out : list Event
}.

Definition m_emit (e : Event) (s : MockState) : MockState := mkMock (m_g s) (m_out s ++ [e]).

(** [::emitPosition]: originalSec mirrors editedSec. *)
Definition m_emitPosition (s : MockState) : MockState :=
  m_emit (EvPosition (g_id (m_g s)) (g_editedSec (m_g s)) (g_editedSec (m_g s))) s.

Definition m_emitState (s : MockState) : MockState :=
  m_emit (EvState (g_id (m_g s)) (g_playing (m_g s))) s.

(** [::emitLoaded()] with its default arguments. *)
Definition m_emitLoaded (s : MockState) : MockState :=
  m_emit (EvLoaded (g_id (m_g s)) (g_durationSec (m_g s)) (Fin 48000) 2) s.

Definition m_setG (f : GState -> GState) (s : MockState) : MockState := mkMock (f (m_g s)) (m_out s).

(** One iteration of the [while (g.running)] loop of [timerThread]. *)
Definition mockTick (s : MockState) : MockState :=
  if g_playing (m_g s) then
    let s := m_setG (set_g_editedSec (dadd (g_editedSec (m_g s)) (Fin 0.033))) s in
    if dle (g_durationSec (m_g s)) (g_editedSec (m_g s)) then
      m_emit (EvEnded (g_id (m_g s))) (m_setG (set_g_playing false) s)
    else m_emitPosition s
  else s.

Fixpoint mockTicks (n : nat) (s : MockState) : MockState :=
  match n with O => s | S k => mockTicks k (mockTick s) end.

(** The commands [handleLine] recognises, in the order it tests them;
    [MSeek None] is a [timeSec] that [std::stod] rejects. *)
Inductive MockCmd : Type :=
| MLoad (id : string)
| MPlay
| MPause
| MStop
| MSeek (t : option double)
| MQueryState
| MUpdateEdlFromFile
| MUpdateEdl
| MSetRateOrVolume
| MUnknown.

Definition handleLine (c : MockCmd) (s : MockState) : MockState :=
  match c with
  | MLoad id =>
      m_emitState (m_emitLoaded
        (m_setG (fun st => set_g_playing false (set_g_editedSec (Fin 0) (set_g_id id st))) s))
  | MPlay => m_emitState (m_setG (set_g_playing true) s)
  | MPause => m_emitState (m_setG (set_g_playing false) s)
  | MStop =>
      m_emitPosition (m_emitState
        (m_setG (fun st => set_g_editedSec (Fin 0) (set_g_playing false st)) s))
  | MSeek t =>
      let s := match t with Some v => m_setG (set_g_editedSec v) s | None => s end in
      m_emitPosition s
  | MQueryState => m_emitPosition (m_emitState s)
  | MUpdateEdlFromFile | MUpdateEdl | MSetRateOrVolume => s
  | MUnknown => m_emit (EvError "unknown command") s
  end.

(** ** The key extraction of the command routers ([extract] in [handleLine]
       and in [main]) *)

Definition quoteChar : ascii := "034"%char.
Definition quoteStr : string := String quoteChar EmptyString.

(** Whether [c] is one of the characters of [chars]. *)
Fixpoint strHas (c : ascii) (chars : string) : bool :=
  match chars with
  | EmptyString => false
  | String d r => Ascii.eqb c d || strHas c r
  end.

(** [s.find_first_of(chars, n)]; [None] is [npos]. *)
Fixpoint findFirstOf (chars : string) (n : nat) (s : string) : option nat :=
  match s with
  | EmptyString => None
  | String c s' =>
      match n with
      | O => if strHas c chars then Some 0%nat else option_map S (findFirstOf chars 0 s')
      | S n' => option_map S (findFirstOf chars n' s')
      end
  end.

(** The stop characters [",}\n"]. *)
Definition stopChars : string :=
  String ","%char (String "}"%char (String "010"%char EmptyString)).

(** [extract(key)] over the command line [line]; [String.index n pat s] is
    [s.find(pat, n)] and [substring] is [substr]. *)
Definition extract (key line : string) : string :=
  let k := append quoteStr (append key (append quoteStr ":"%string)) in
  match index 0 k line with
  | None => EmptyString
  | Some p0 =>
      let p := (p0 + String.length k)%nat in
      if Nat.leb (String.length line) p then EmptyString
      else if match String.get p line with Some c => Ascii.eqb c quoteChar | None => false end then
        match index (S p) quoteStr line with
        | None => EmptyString
        | Some e => substring (S p) (e - S p) line
        end
      else
        let e := match findFirstOf stopChars p line with
                 | None => String.length line
                 | Some e => e
                 end in
        substring p (e - p) line
  end.

(** ** Statements used by the claims *)

(** The spec's reordering example: edited [0,0.4) plays original [0.6,1.0),
    edited [0.4,0.8) plays original [0,0.4). *)
Definition reorderTimeline : list Segment :=
  [mkSegment "word" (Fin 0) (Fin 0.4) (Fin 0.4) "" (Fin 0.6) (Fin 1.0);
   mkSegment "word" (Fin 0.4) (Fin 0.8) (Fin 0.4) "" (Fin 0) (Fin 0.4)].

(** Rate and gain sanitisation as the spec words it: finite, default 1.0,
    then clamped. *)
Definition specRate (r : double) : double :=
  match r with
  | Fin q =>
      if Qle_bool q 0 then Fin 1
      else if Qltb q 0.25 then Fin 0.25
      else if Qltb 4 q then Fin 4
      else Fin q
  | _ => Fin 1
  end.

Definition specGain (v : double) : double :=
  match v with
  | Fin q => if Qltb q 0 then Fin 0 else if Qltb 2 q then Fin 2 else Fin q
  | _ => Fin 1
  end.

(** The control commands that require loaded audio. *)
Definition needsAudio (c : Command) : bool :=
  match c with CmdPlay | CmdPause | CmdStop | CmdSeek _ => true | _ => false end.

(** ** Lemmas on the double model *)

Lemma Qltb_true x y : x < y -> Qltb x y = true.
Proof.
  intro H. unfold Qltb. destruct (Qle_bool y x) eqn:E; [|reflexivity].
  apply Qle_bool_iff in E. exfalso. apply (Qlt_not_le x y); assumption.
Qed.

Lemma Qltb_false x y : y <= x -> Qltb x y = false.
Proof. intro H. unfold Qltb. apply Qle_bool_iff in H. now rewrite H. Qed.

Lemma Qltb_true_inv x y : Qltb x y = true -> x < y.
Proof.
  unfold Qltb. intro H. apply negb_true_iff in H.
  apply Qnot_le_lt. intro H'. apply Qle_bool_iff in H'. congruence.
Qed.

Lemma Qltb_false_inv x y : Qltb x y = false -> y <= x.
Proof. unfold Qltb. intro H. apply negb_false_iff in H. now apply Qle_bool_iff. Qed.

Lemma Qeq_bool_false x y : ~ x == y -> Qeq_bool x y = false.
Proof. intro H. destruct (Qeq_bool x y) eqn:E; [|reflexivity]. apply Qeq_bool_iff in E. contradiction. Qed.

Lemma dle_fin_true x y : x <= y -> dle (Fin x) (Fin y) = true.
Proof.
  intro H. unfold dle; simpl. destruct (Qlt_le_dec x y) as [Hlt|Hle].
  - now rewrite (Qltb_true _ _ Hlt).
  - assert (x == y) as E by lra. apply Qeq_bool_iff in E. rewrite E. apply orb_true_r.
Qed.

Lemma dle_fin_false x y : y < x -> dle (Fin x) (Fin y) = false.
Proof.
  intro H. unfold dle; simpl. rewrite Qltb_false by lra. simpl.
  destruct (Qeq_bool x y) eqn:E; [|reflexivity]. apply Qeq_bool_iff in E. lra.
Qed.

Lemma dle_fin_inv x y : dle (Fin x) (Fin y) = true -> x <= y.
Proof.
  unfold dle; simpl. intro H. apply orb_true_iff in H. destruct H as [H|H].
  - apply Qltb_true_inv in H. lra.
  - apply Qeq_bool_iff in H. lra.
Qed.

Lemma kMinDuration_pos : 0 < kMinDuration.
Proof. vm_compute; reflexivity. Qed.

Lemma kMaxReasonableTime_pos : kMinDuration < kMaxReasonableTime.
Proof. vm_compute; reflexivity. Qed.

Lemma sanitizeTime_in q fb :
  0 <= q -> q <= kMaxReasonableTime -> sanitizeTime (Fin q) fb = Fin q.
Proof.
  intros H0 H1. unfold sanitizeTime; simpl.
  rewrite (Qltb_false q 0) by lra. now rewrite Qltb_false.
Qed.

Lemma sanitizeDuration_ok q : kMinDuration <= q -> sanitizeDuration (Fin q) = Fin q.
Proof. intro H. unfold sanitizeDuration; simpl. now rewrite Qltb_false. Qed.

Lemma clamp01_in v : 0 <= v -> v <= 1 -> clamp (Fin v) (Fin 0) (Fin 1) = Fin v.
Proof. intros H0 H1. unfold clamp; simpl. rewrite (Qltb_false v 0) by lra. now rewrite Qltb_false. Qed.

(** ** C1: seeking on the reordering timeline *)

(** Claim C1: on the timeline whose flattened segments are edited [0,0.4) ->
    original [0.6,1.0) and edited [0.4,0.8) -> original [0,0.4), [seek 0.2]
    computes [editedToOriginal 0.2 = 0.8] and sets the Transport's original
    position to 0.8, and [seek 0.5] computes [editedToOriginal 0.5 = 0.1] and
    sets it to 0.1; both set the edited playhead to the requested time. *)
Theorem seek_reorder_positions (s : Backend)
  (Hloaded : readerSource s = true) (Hsegs : segments s = reorderTimeline) :
  deqb (editedToOriginal (segments s) (Fin 0.2)) (Fin 0.8) = true /\
  deqb (tr_position (transport (exec (seek (Fin 0.2)) s))) (Fin 0.8) = true /\
  g_editedSec (g (exec (seek (Fin 0.2)) s)) = Fin 0.2 /\
  deqb (editedToOriginal (segments s) (Fin 0.5)) (Fin 0.1) = true /\
  deqb (tr_position (transport (exec (seek (Fin 0.5)) s))) (Fin 0.1) = true /\
  g_editedSec (g (exec (seek (Fin 0.5)) s)) = Fin 0.5.
Proof.
  unfold exec, seek, bind, get, modify_transport, modify_g, modify, emitPositionFromTransport,
    emit; cbn. rewrite Hloaded, Hsegs. cbn.
  repeat split; vm_compute; reflexivity.
Qed.

Lemma seek_reorder_positions_witness :
  readerSource (set_segments reorderTimeline (set_readerSource true initialBackend)) = true /\
  segments (set_segments reorderTimeline (set_readerSource true initialBackend)) = reorderTimeline /\
  deqb (tr_position (transport (exec (seek (Fin 0.2))
          (set_segments reorderTimeline (set_readerSource true initialBackend))))) (Fin 0.8) = true.
Proof.
  split; [reflexivity|]. split; [reflexivity|].
  apply (seek_reorder_positions (set_segments reorderTimeline (set_readerSource true initialBackend)));
    reflexivity.
Defined.

(** ** C7: rate and gain sanitisation *)

(** Claim C7: [setRate] sets the playback rate and the resampling ratio to its
    argument made finite (1.0 for NaN, infinities and non-positive values) and
    clamped to [0.25, 4.0]; [setVolume] sets the gain to its argument made
    finite (1.0 otherwise) and clamped to [0.0, 2.0]; in particular
    setRate(NaN) gives 1.0, setRate(10) gives 4.0 and setVolume(-1) gives 0.0. *)
Theorem setRate_setVolume_sanitized :
  (forall s r, resamplingRatio (exec (setRate r) s) = specRate r /\
               playbackRate (exec (setRate r) s) = specRate r) /\
  (forall s v, tr_gain (transport (exec (setVolume v) s)) = specGain v) /\
  (forall s, resamplingRatio (exec (setRate NaN) s) = Fin 1) /\
  (forall s, resamplingRatio (exec (setRate (Fin 10)) s) = Fin 4) /\
  (forall s, tr_gain (transport (exec (setVolume (Fin (-1))) s)) = Fin 0).
Proof.
  assert (Hr : forall r, sanitizeRate r = specRate r).
  { intros [q| | |]; try reflexivity. unfold sanitizeRate, specRate, dle, clamp; simpl.
    destruct (Qle_bool q 0) eqn:E.
    - apply Qle_bool_iff in E. destruct (Qlt_le_dec q 0) as [Hl|Hl].
      + now rewrite (Qltb_true _ _ Hl).
      + assert (q == 0) as Eq by lra. apply Qeq_bool_iff in Eq. rewrite Eq, orb_true_r. reflexivity.
    - assert (0 < q) as Hp by (apply Qnot_le_lt; intro H; apply Qle_bool_iff in H; congruence).
      rewrite (Qltb_false q 0) by lra. simpl.
      destruct (Qeq_bool q 0) eqn:E0; [apply Qeq_bool_iff in E0; lra|]. reflexivity. }
  repeat split; intros; unfold exec, setRate, setVolume, bind, modify, modify_transport; simpl;
    try apply Hr; try reflexivity.
  destruct v; reflexivity.
Qed.

(** ** C8: control operations without audio *)

(** Claim C8: play, pause, stop and seek issued while no audio is loaded emit
    one error event and change nothing else: the playing flag, the edited
    playhead and the Transport keep their values. *)
Theorem control_without_audio (s : Backend) (c : Command)
  (Hunloaded : readerSource s = false) (Hc : needsAudio c = true) :
  out (exec (handle c) s) = out s ++ [EvError "No audio loaded"] /\
  g_playing (g (exec (handle c) s)) = g_playing (g s) /\
  g_editedSec (g (exec (handle c) s)) = g_editedSec (g s) /\
  transport (exec (handle c) s) = transport s /\
  exec (handle c) s = set_out (out s ++ [EvError "No audio loaded"]) s.
Proof.
  destruct c; try discriminate Hc;
    unfold exec, handle, play, pause, stop, seek, noAudio, emit, bind, get, modify; simpl;
    rewrite Hunloaded; simpl; repeat split; reflexivity.
Qed.

Lemma control_without_audio_witness :
  readerSource initialBackend = false /\ needsAudio (CmdSeek (Fin 1)) = true /\
  out (exec (handle (CmdSeek (Fin 1))) initialBackend) = [EvError "No audio loaded"].
Proof.
  split; [reflexivity|]. split; [reflexivity|].
  apply (control_without_audio initialBackend (CmdSeek (Fin 1))); reflexivity.
Defined.

(** ** C2: round trip on monotone timelines *)

Definition qOf (x : double) : Q := match x with Fin q => q | _ => 0 end.

(** A segment carrying a finite original interval of at least 100 us inside
    [0, 24 h] and a finite edited duration of at least 100 us. *)
Definition mappedSeg (s : Segment) : bool :=
  match seg_originalStart s, seg_originalEnd s, seg_dur s with
  | Fin a, Fin b, Fin d =>
      Qle_bool 0 a && Qle_bool b kMaxReasonableTime &&
      Qle_bool (a + kMinDuration) b && Qle_bool kMinDuration d
  | _, _, _ => false
  end.

(** Original intervals in increasing, non-overlapping order along the list. *)
Fixpoint monotoneTimeline (segs : list Segment) : bool :=
  match segs with
  | [] => true
  | s :: rest =>
      mappedSeg s &&
      match rest with
      | [] => true
      | s' :: _ => Qle_bool (qOf (seg_originalEnd s)) (qOf (seg_originalStart s'))
      end &&
      monotoneTimeline rest
  end.

Definition totalEdited (segs : list Segment) : Q :=
  fold_right (fun s acc => qOf (seg_dur s) + acc) 0 segs.

(** A timeline whose originals equal its edited intervals, with a gap
    between the two segments. *)
Definition gappedIdentityTimeline : list Segment :=
  [mkSegment "word" (Fin 0) (Fin 1) (Fin 1) "" (Fin 0) (Fin 1);
   mkSegment "word" (Fin 2) (Fin 3) (Fin 1) "" (Fin 2) (Fin 3)].

Lemma mappedSeg_view s :
  mappedSeg s = true ->
  exists a b d, seg_originalStart s = Fin a /\ seg_originalEnd s = Fin b /\ seg_dur s = Fin d /\
    0 <= a /\ b <= kMaxReasonableTime /\ a + kMinDuration <= b /\ kMinDuration <= d /\
    seg_os s = Fin a /\ seg_oe s = Fin b /\ seg_odur s = Fin (b + - a) /\
    seg_edur s = Fin d /\ seg_skipped s = false.
Proof.
  unfold mappedSeg. destruct (seg_originalStart s) as [a| | |] eqn:Ea; try discriminate.
  destruct (seg_originalEnd s) as [b| | |] eqn:Eb; try discriminate.
  destruct (seg_dur s) as [d| | |] eqn:Ed; try discriminate.
  intro H. repeat rewrite andb_true_iff in H.
  destruct H as [[[H1 H2] H3] H4]. apply Qle_bool_iff in H1, H2, H3, H4.
  assert (kMinDuration > 0) as Hk by (vm_compute; reflexivity).
  assert (kMaxReasonableTime > 0) as Hk' by (vm_compute; reflexivity).
  assert (Hh : hasOriginal s = true).
  { unfold hasOriginal. rewrite Ea, Eb. rewrite !dle_fin_true by lra. reflexivity. }
  assert (Hos : seg_os s = Fin a) by (unfold seg_os; rewrite Hh, Ea; apply sanitizeTime_in; lra).
  assert (Hoe : seg_oe s = Fin b) by (unfold seg_oe; rewrite Hh, Eb; apply sanitizeTime_in; lra).
  assert (Hod : seg_odur s = Fin (b + - a)).
  { unfold seg_odur. rewrite Hos, Hoe. apply sanitizeDuration_ok. lra. }
  assert (Hed : seg_edur s = Fin d) by (unfold seg_edur; rewrite Ed; now apply sanitizeDuration_ok).
  exists a, b, d. repeat split; try assumption; try lra.
  unfold seg_skipped. rewrite Hod, Hed. rewrite !dle_fin_false by lra. reflexivity.
Qed.

(** [originalToEdited]'s loop returns its accumulator when the position lies
    at or before the first original start. *)
Lemma o2e_loop_before segs acc o :
  monotoneTimeline segs = true -> 0 <= o ->
  match segs with [] => True | s :: _ => o <= qOf (seg_originalStart s) end ->
  exists r, o2e_loop (Fin o) (Fin acc) segs = Fin r /\ r == acc.
Proof.
  destruct segs as [|s rest]; intros Hm Ho Hfirst; simpl.
  - exists acc. split; [reflexivity | lra].
  - simpl in Hm. apply andb_true_iff in Hm as [Hm _]. apply andb_true_iff in Hm as [Hs _].
    destruct (mappedSeg_view s Hs) as (a & b & d & Ea & Eb & Ed & Ha & Hb & Hab & Hd &
                                         Hos & Hoe & Hod & Hed & Hsk).
    rewrite Hsk, Hos, Hod, Hed. rewrite Ea in Hfirst; simpl in Hfirst.
    destruct (Qlt_le_dec o a) as [Hlt|Hge].
    + simpl. rewrite (Qltb_true _ _ Hlt). exists acc. split; [reflexivity|lra].
    + assert (o == a) as Eo by lra. pose proof kMinDuration_pos.
      simpl. rewrite (Qltb_false o a) by lra.
      rewrite (Qltb_true o (a + (b + - a))) by lra.
      assert (Hq : ~ (b + - a == 0)) by (intro; lra).
      assert (Hz : (o + - a) / (b + - a) == 0) by (rewrite Eo; field; exact Hq).
      unfold ddiv. rewrite (Qeq_bool_false _ _ Hq).
      unfold clamp; simpl.
      rewrite (Qltb_false ((o + - a) / (b + - a)) 0) by (rewrite Hz; lra).
      rewrite (Qltb_false 1 ((o + - a) / (b + - a))) by (rewrite Hz; lra).
      eexists. split; [reflexivity|]. rewrite Hz. lra.
Qed.

Lemma monotoneTimeline_cons s rest :
  monotoneTimeline (s :: rest) = true ->
  mappedSeg s = true /\ monotoneTimeline rest = true /\
  match rest with [] => True | s' :: _ => qOf (seg_originalEnd s) <= qOf (seg_originalStart s') end.
Proof.
  simpl. intro H. apply andb_true_iff in H as [H Hr]. apply andb_true_iff in H as [Hs Hn].
  repeat split; try assumption. destruct rest; [exact I|]. now apply Qle_bool_iff.
Qed.

(** Inside one segment both loops stop at it and invert each other. *)
Lemma roundtrip_within s rest acc t :
  monotoneTimeline (s :: rest) = true -> acc <= t -> t <= acc + qOf (seg_dur s) ->
  exists o, e2o_loop (Fin t) (Fin acc) (s :: rest) = Some (Fin o) /\
    qOf (seg_originalStart s) <= o /\ o <= kMaxReasonableTime /\
    exists r, o2e_loop (Fin o) (Fin acc) (s :: rest) = Fin r /\ r == t.
Proof.
  intros Hm H1 H2. pose proof kMinDuration_pos as Hk.
  destruct (monotoneTimeline_cons s rest Hm) as (Hs & Hrest & Hnext).
  destruct (mappedSeg_view s Hs) as (a & b & d & Ea & Eb & Ed & Ha & Hb & Hab & Hd &
                                       Hos & Hoe & Hod & Hed & Hsk).
  rewrite Ed in H2; simpl in H2. rewrite Eb in Hnext; simpl in Hnext.
  assert (Hdnz : ~ d == 0) by (intro; lra).
  assert (Hbnz : ~ b + - a == 0) by (intro; lra).
  set (r := (t + - acc) / d).
  assert (Hr0 : 0 <= r) by (apply Qle_shift_div_l; lra).
  assert (Hr1 : r <= 1) by (apply Qle_shift_div_r; lra).
  assert (Hrd : r * d == t + - acc) by (unfold r; field; exact Hdnz).
  set (o := a + r * (b + - a)).
  assert (Hoa : a <= o) by (unfold o; nra).
  assert (Hob : o <= b) by (unfold o; nra).
  exists o. simpl. rewrite Hsk, Hos, Hod, Hed. simpl.
  rewrite (dle_fin_true t (acc + d)) by lra.
  unfold ddiv. rewrite (Qeq_bool_false _ _ Hdnz). rewrite clamp01_in by assumption.
  split; [reflexivity|]. rewrite Ea. split; [simpl; lra|]. split; [lra|].
  rewrite (Qltb_false o a) by lra.
  destruct (Qlt_le_dec o b) as [Hlt|Hge].
  - rewrite (Qltb_true o (a + (b + - a))) by lra.
    rewrite (Qeq_bool_false _ _ Hbnz).
    assert (Hr' : (o + - a) / (b + - a) == r) by (unfold o; field; exact Hbnz).
    rewrite clamp01_in by (rewrite Hr'; assumption).
    eexists. split; [reflexivity|]. rewrite Hr'. lra.
  - rewrite (Qltb_false o (a + (b + - a))) by lra.
    assert (Hr'1 : r == 1) by (unfold o in Hge; nra).
    assert (Ht : t == acc + d) by (rewrite Hr'1 in Hrd; lra).
    destruct (o2e_loop_before rest (acc + d) o Hrest ltac:(lra)) as (r' & Ho & Hr').
    + destruct rest; [exact I|]. lra.
    + exists r'. split; [exact Ho|]. lra.
Qed.

Lemma roundtrip_loop segs : forall s acc t,
  monotoneTimeline (s :: segs) = true -> acc <= t -> t <= acc + totalEdited (s :: segs) ->
  exists o, e2o_loop (Fin t) (Fin acc) (s :: segs) = Some (Fin o) /\
    qOf (seg_originalStart s) <= o /\ o <= kMaxReasonableTime /\
    exists r, o2e_loop (Fin o) (Fin acc) (s :: segs) = Fin r /\ r == t.
Proof.
  induction segs as [|s' segs IH]; intros s acc t Hm H1 H2.
  - apply roundtrip_within; try assumption. simpl in H2. lra.
  - destruct (Qlt_le_dec (acc + qOf (seg_dur s)) t) as [Hgt|Hle];
      [| apply roundtrip_within; assumption].
    destruct (monotoneTimeline_cons s (s' :: segs) Hm) as (Hs & Hrest & Hnext).
    destruct (mappedSeg_view s Hs) as (a & b & d & Ea & Eb & Ed & Ha & Hb & Hab & Hd &
                                         Hos & Hoe & Hod & Hed & Hsk).
    pose proof kMinDuration_pos as Hk.
    rewrite Ed in Hgt; simpl in Hgt. rewrite Eb in Hnext; simpl in Hnext.
    change (totalEdited (s :: s' :: segs)) with (qOf (seg_dur s) + totalEdited (s' :: segs)) in H2.
    rewrite Ed in H2; cbn [qOf] in H2.
    destruct (IH s' (acc + d) t Hrest ltac:(lra) ltac:(lra)) as (o & He & Hlo & Hhi & r & Ho & Hr).
    exists o. simpl. rewrite Hsk, Hos, Hod, Hed. simpl.
    rewrite (dle_fin_false t (acc + d)) by lra.
    split; [exact He|]. rewrite Ea. split; [simpl; lra|]. split; [lra|].
    rewrite (Qltb_false o a) by lra. rewrite (Qltb_false o (a + (b + - a))) by lra.
    exists r. split; [exact Ho | exact Hr].
Qed.

(** A monotone timeline with a gap removed from the original axis: edited
    [0,0.4) plays original [0,0.4) and edited [0.4,0.8) plays [0.6,1.0). *)
Definition gapRemovedTimeline : list Segment :=
  [mkSegment "word" (Fin 0) (Fin 0.4) (Fin 0.4) "" (Fin 0) (Fin 0.4);
   mkSegment "word" (Fin 0.4) (Fin 0.8) (Fin 0.4) "" (Fin 0.6) (Fin 1.0)].

(** Claim C2 fails as stated: on a timeline whose originals equal its edited
    intervals [0,1) and [2,3), the edited time 2.5 lies inside the second
    segment, yet [originalToEdited (editedToOriginal 2.5)] is 2, not within
    1 us of 2.5: the mapper reads edited time as the running sum of segment
    durations from 0 and never looks at a segment's edited start. *)
Lemma roundtrip_gap_counterexample :
  Forall (fun s => seg_originalStart s = seg_start s /\ seg_originalEnd s = seg_end s)
    gappedIdentityTimeline /\
  dle (Fin 2) (Fin 2.5) && dlt (Fin 2.5) (Fin 3) = true /\
  deqb (originalToEdited gappedIdentityTimeline
          (editedToOriginal gappedIdentityTimeline (Fin 2.5))) (Fin 2) = true /\
  ~ (exists r, originalToEdited gappedIdentityTimeline
                 (editedToOriginal gappedIdentityTimeline (Fin 2.5)) = Fin r /\
               Qabs (r - 2.5) <= 1e-6).
Proof.
  split; [repeat constructor|]. split; [reflexivity|]. split; [vm_compute; reflexivity|].
  intros (r & Hr & Hle). vm_compute in Hr. injection Hr as <-. vm_compute in Hle. now apply Hle.
Qed.

(** Claim C2 (amended): for a timeline whose segments carry original
    intervals (each at least 100 us, inside [0, 24 h]) in increasing,
    non-overlapping order along the list, with edited durations of at least
    100 us, and for every e from 0 to the total edited duration (the sum of
    the segment durations, at most 24 h), [originalToEdited (editedToOriginal
    e)] equals e exactly. *)
Theorem roundtrip_monotone (segs : list Segment) (e : Q)
  (Hmono : monotoneTimeline segs = true) (He0 : 0 <= e)
  (He1 : e <= totalEdited segs) (Hemax : e <= kMaxReasonableTime) :
  exists r, originalToEdited segs (editedToOriginal segs (Fin e)) = Fin r /\ r == e.
Proof.
  destruct segs as [|s rest].
  - simpl in He1. exists e. unfold editedToOriginal, originalToEdited.
    rewrite !sanitizeTime_in by lra. split; [reflexivity|lra].
  - destruct (roundtrip_loop rest s 0 e Hmono ltac:(lra) ltac:(lra))
      as (o & He & Hlo & Hhi & r & Ho & Hr).
    destruct (monotoneTimeline_cons s rest Hmono) as (Hs & _).
    destruct (mappedSeg_view s Hs) as (a & b & d & Ea & _ & _ & Ha & _).
    rewrite Ea in Hlo; simpl in Hlo.
    unfold editedToOriginal. rewrite sanitizeTime_in by lra. rewrite He.
    unfold originalToEdited. rewrite sanitizeTime_in by lra.
    exists r. split; [exact Ho | exact Hr].
Qed.

Lemma roundtrip_monotone_witness :
  exists r, originalToEdited gapRemovedTimeline (editedToOriginal gapRemovedTimeline (Fin 0.5)) = Fin r
            /\ r == 0.5.
Proof.
  apply (roundtrip_monotone gapRemovedTimeline 0.5);
    [vm_compute; reflexivity | vm_compute; discriminate | vm_compute; discriminate
    | vm_compute; discriminate].
Defined.

(** ** C9: range of the mapper *)

Definition finiteSeg (s : Segment) : bool :=
  isfinite (seg_start s) && isfinite (seg_end s) && isfinite (seg_dur s) &&
  isfinite (seg_originalStart s) && isfinite (seg_originalEnd s).

(** Sum of the sanitised edited durations. *)
Definition sumEdur (segs : list Segment) : Q :=
  fold_right (fun s acc => qOf (seg_edur s) + acc) 0 segs.

Lemma sanitizeTime_range q fb :
  exists r, sanitizeTime (Fin q) fb = Fin r /\ 0 <= r /\ r <= kMaxReasonableTime.
Proof.
  pose proof kMaxReasonableTime_pos. pose proof kMinDuration_pos.
  unfold sanitizeTime; simpl. destruct (Qltb q 0) eqn:E1.
  - exists 0. split; [reflexivity|lra].
  - apply Qltb_false_inv in E1. destruct (Qltb kMaxReasonableTime q) eqn:E2.
    + exists kMaxReasonableTime. split; [reflexivity|lra].
    + apply Qltb_false_inv in E2. exists q. split; [reflexivity|lra].
Qed.

Lemma sanitizeTime_zero_range x :
  exists r, sanitizeTime x (Fin 0) = Fin r /\ 0 <= r /\ r <= kMaxReasonableTime.
Proof.
  destruct x as [q| | |]; try apply sanitizeTime_range;
    exists 0; split; try reflexivity; pose proof kMaxReasonableTime_pos;
    pose proof kMinDuration_pos; lra.
Qed.

Lemma sanitizeDuration_cases x :
  sanitizeDuration x = Fin 0 \/
  exists q, x = Fin q /\ kMinDuration <= q /\ sanitizeDuration x = Fin q.
Proof.
  unfold sanitizeDuration. destruct x as [q| | |]; simpl; auto.
  destruct (Qltb q kMinDuration) eqn:E; auto.
  right. exists q. apply Qltb_false_inv in E. auto.
Qed.

Lemma sanitizeDuration_nonneg x : exists q, sanitizeDuration x = Fin q /\ 0 <= q.
Proof.
  destruct (sanitizeDuration_cases x) as [H | (q & _ & Hq & H)]; rewrite H.
  - exists 0. split; [reflexivity|lra].
  - exists q. pose proof kMinDuration_pos. split; [reflexivity|lra].
Qed.

Lemma clamp01_range v :
  exists w, clamp (Fin v) (Fin 0) (Fin 1) = Fin w /\ 0 <= w /\ w <= 1.
Proof.
  unfold clamp; simpl. destruct (Qltb v 0) eqn:E1.
  - exists 0. split; [reflexivity|lra].
  - apply Qltb_false_inv in E1. destruct (Qltb 1 v) eqn:E2.
    + exists 1. split; [reflexivity|lra].
    + apply Qltb_false_inv in E2. exists v. split; [reflexivity|lra].
Qed.

(** A segment the loops do not skip has finite original bounds and durations
    of at least 100 us. *)
Lemma not_skipped_view s :
  seg_skipped s = false ->
  exists a b d, seg_os s = Fin a /\ seg_oe s = Fin b /\ seg_odur s = Fin (b + - a) /\
    kMinDuration <= b + - a /\ seg_edur s = Fin d /\ kMinDuration <= d.
Proof.
  unfold seg_skipped. intro H. apply orb_false_iff in H as [H1 H2].
  destruct (sanitizeDuration_cases (dsub (seg_oe s) (seg_os s))) as [E | (x & Ex & Hx & E)];
    unfold seg_odur in H1; rewrite E in H1; [discriminate|].
  destruct (sanitizeDuration_cases (seg_dur s)) as [E' | (d & Ed & Hd & E')];
    unfold seg_edur in H2; rewrite E' in H2; [discriminate|].
  destruct (seg_oe s) as [b| | |] eqn:Eb; destruct (seg_os s) as [a| | |] eqn:Ea;
    try discriminate Ex.
  injection Ex as <-. exists a, b, d. unfold seg_odur, seg_edur. rewrite Ea, Eb, E, E'.
  repeat split; assumption.
Qed.

Lemma finiteSeg_os_range s :
  finiteSeg s = true ->
  (exists a, seg_os s = Fin a /\ 0 <= a /\ a <= kMaxReasonableTime) /\
  (exists b, seg_oe s = Fin b /\ 0 <= b /\ b <= kMaxReasonableTime).
Proof.
  unfold finiteSeg, seg_os, seg_oe. intro H. repeat rewrite andb_true_iff in H.
  destruct H as [[[[H1 H2] H3] H4] H5].
  destruct (seg_start s); try discriminate. destruct (seg_end s); try discriminate.
  destruct (seg_originalStart s); try discriminate. destruct (seg_originalEnd s); try discriminate.
  destruct (hasOriginal s); split; apply sanitizeTime_range.
Qed.

Lemma o2e_loop_range segs : forall p acc,
  0 <= acc ->
  exists q, o2e_loop (Fin p) (Fin acc) segs = Fin q /\ acc <= q /\ q <= acc + sumEdur segs.
Proof.
  induction segs as [|s rest IH]; intros p acc Hacc.
  - exists acc. simpl. split; [reflexivity|lra].
  - simpl o2e_loop. change (sumEdur (s :: rest)) with (qOf (seg_edur s) + sumEdur rest).
    assert (Hrest : 0 <= sumEdur rest).
    { clear. induction rest as [|s' r IH]; simpl; [lra|].
      destruct (sanitizeDuration_nonneg (seg_dur s')) as (q & E & Hq).
      unfold seg_edur at 1. rewrite E. simpl. fold (sumEdur r). lra. }
    destruct (sanitizeDuration_nonneg (seg_dur s)) as (e & Ee & He).
    destruct (seg_skipped s) eqn:Hsk.
    + destruct (IH p acc Hacc) as (q & Hq & H1 & H2). exists q.
      unfold seg_edur at 1. rewrite Ee. simpl. split; [exact Hq|lra].
    + destruct (not_skipped_view s Hsk) as (a & b & d & Hos & Hoe & Hod & Hx & Hed & Hd).
      pose proof kMinDuration_pos.
      rewrite Hos, Hod, Hed. simpl.
      destruct (Qltb p a).
      * exists acc. split; [reflexivity|lra].
      * destruct (Qltb p (a + (b + - a))).
        -- unfold ddiv, dsub; simpl. rewrite (Qeq_bool_false (b + - a) 0) by (intro; lra).
           destruct (clamp01_range ((p + - a) / (b + - a))) as (w & Ew & Hw0 & Hw1).
           rewrite Ew. simpl. exists (acc + w * d). split; [reflexivity|]. split; nra.
        -- destruct (IH p (acc + d) ltac:(lra)) as (q & Hq & H1 & H2).
           exists q. split; [exact Hq|lra].
Qed.

Lemma e2o_loop_range segs : forall t acc o,
  forallb finiteSeg segs = true ->
  e2o_loop (Fin t) (Fin acc) segs = Some o ->
  exists q, o = Fin q /\ 0 <= q /\ q <= kMaxReasonableTime.
Proof.
  induction segs as [|s rest IH]; intros t acc o Hf He; [discriminate|].
  simpl in Hf. apply andb_true_iff in Hf as [Hs Hf].
  simpl in He. destruct (seg_skipped s) eqn:Hsk; [eapply IH; eassumption|].
  destruct (not_skipped_view s Hsk) as (a & b & d & Hos & Hoe & Hod & Hx & Hed & Hd).
  destruct (finiteSeg_os_range s Hs) as [(a' & Ea' & Ha0 & Ha1) (b' & Eb' & Hb0 & Hb1)].
  rewrite Hos in Ea'. injection Ea' as <-. rewrite Hoe in Eb'. injection Eb' as <-.
  rewrite Hos, Hod, Hed in He. pose proof kMinDuration_pos.
  simpl in He. destruct (dle (Fin t) (Fin (acc + d))).
  - unfold ddiv in He; simpl in He. rewrite (Qeq_bool_false d 0) in He by (intro; lra).
    destruct (clamp01_range ((t + - acc) / d)) as (w & Ew & Hw0 & Hw1).
    rewrite Ew in He. simpl in He. injection He as <-.
    exists (a + w * (b + - a)). split; [reflexivity|]. split; nra.
  - eapply IH; eassumption.
Qed.

Lemma finiteSeg_last segs : forall d,
  forallb finiteSeg segs = true -> finiteSeg d = true -> finiteSeg (last segs d) = true.
Proof.
  induction segs as [|s rest IH]; intros d H Hd; [exact Hd|].
  simpl in H. apply andb_true_iff in H as [Hs Hr].
  destruct rest as [|s' rest']; [exact Hs|]. apply IH; assumption.
Qed.

(** An [updateEdl] payload with two overlapping clips, each holding one
    segment spanning [0, 50000) seconds. *)
Definition overlapRawClip : RawClip :=
  mkRawClip "c" (Fin 0) (Fin 50000) NaN NaN "" "speech"
    [mkRawSegment "word" (Fin 0) (Fin 50000) NaN NaN "w"].

Definition overlapBackend : Backend :=
  exec (handle (CmdUpdateEdl [overlapRawClip; overlapRawClip] 1)) initialBackend.

(** Claim C9 fails as stated: after [updateEdl] installs two overlapping
    50000 s segments, [originalToEdited 86400] returns 100000, beyond 24 h:
    the accumulated edited duration is not clamped. *)
Lemma mapper_range_counterexample :
  deqb (originalToEdited (segments overlapBackend) (Fin 86400)) (Fin 100000) = true /\
  ~ (exists q, originalToEdited (segments overlapBackend) (Fin 86400) = Fin q /\
               q <= kMaxReasonableTime).
Proof.
  split; [vm_compute; reflexivity|].
  intros (q & Hq & Hle). vm_compute in Hq. injection Hq as <-. vm_compute in Hle. now apply Hle.
Qed.

(** Claim C9 (amended): for every segment list whose fields are finite (as in
    every list [load] or [updateEdl] installs) and every double input,
    including NaN, infinities, negative values and values beyond 24 h,
    [editedToOriginal] returns a finite value in [0, 86400] and
    [originalToEdited] returns a finite non-negative value, at most 86400 on
    an empty list and at most the sum of the sanitised segment durations
    otherwise (which exceeds 86400 when segments overlap). *)
Theorem mapper_total_bounded (segs : list Segment) (x : double)
  (Hfin : forallb finiteSeg segs = true) :
  (exists q, editedToOriginal segs x = Fin q /\ 0 <= q /\ q <= kMaxReasonableTime) /\
  (exists q, originalToEdited segs x = Fin q /\ 0 <= q /\
             q <= match segs with [] => kMaxReasonableTime | _ => sumEdur segs end).
Proof.
  split.
  - destruct segs as [|s0 rest]; [apply sanitizeTime_zero_range|].
    unfold editedToOriginal.
    destruct (sanitizeTime_zero_range x) as (t & Et & Ht0 & Ht1). rewrite Et.
    destruct (e2o_loop (Fin t) (Fin 0) (s0 :: rest)) as [o|] eqn:He.
    + eapply e2o_loop_range; eassumption.
    + assert (Hl : finiteSeg (back (s0 :: rest) s0) = true).
      { unfold back. apply finiteSeg_last; [exact Hfin|].
        simpl in Hfin. now apply andb_true_iff in Hfin as [Hs _]. }
      unfold finiteSeg in Hl. repeat rewrite andb_true_iff in Hl.
      destruct Hl as [[[[H1 H2] H3] H4] H5].
      destruct (hasOriginal (back (s0 :: rest) s0)).
      * destruct (seg_originalEnd (back (s0 :: rest) s0)); try discriminate.
        apply sanitizeTime_range.
      * apply sanitizeTime_zero_range.
  - destruct segs as [|s0 rest]; [apply sanitizeTime_zero_range|].
    unfold originalToEdited.
    destruct (sanitizeTime_zero_range x) as (p & Ep & Hp0 & Hp1). rewrite Ep.
    destruct (o2e_loop_range (s0 :: rest) p 0 (Qle_refl 0)) as (q & Hq & H1 & H2).
    exists q. split; [exact Hq|]. split; lra.
Qed.

Lemma mapper_total_bounded_witness :
  (exists q, editedToOriginal reorderTimeline NaN = Fin q /\ 0 <= q /\ q <= kMaxReasonableTime) /\
  (exists q, originalToEdited reorderTimeline NaN = Fin q /\ 0 <= q /\
             q <= sumEdur reorderTimeline).
Proof.
  apply (mapper_total_bounded reorderTimeline NaN). reflexivity.
Defined.

(** ** Position events after [stop] on a reordering timeline *)

Definition rawWord (a b : Q) : RawSegment :=
  mkRawSegment "word" (Fin a) (Fin b) NaN NaN "w".

(** The spec's reordering example as an [updateEdl] payload: clip B plays
    original [0.6,1.0) first, clip A plays original [0,0.4) second. *)
Definition rawClipB : RawClip :=
  mkRawClip "B" (Fin 0) (Fin 0.4) (Fin 0.6) (Fin 1.0) "s" "speech" [rawWord 0 0.4].
Definition rawClipA : RawClip :=
  mkRawClip "A" (Fin 0.4) (Fin 0.8) (Fin 0) (Fin 0.4) "s" "speech" [rawWord 0 0.4].

(** A 1 s, 48 kHz stereo file is loaded, the reordering edit applied, and
    playback stopped. *)
Definition reorderStopBackend : Backend :=
  exec (run [CmdLoad "a" (Readable (Fin 48000) 48000 2);
             CmdUpdateEdl [rawClipB; rawClipA] 1;
             CmdStop]) initialBackend.

(** Claim C3 does not hold of the code: after [stop] the transport is at
    original time 0, but the position event [stop] emits reports
    originalSec 0.6, which is [editedToOriginal] of the edited playhead 0,
    not the transport's position. *)
Theorem stop_position_not_transport :
  tr_position (transport reorderStopBackend) = Fin 0 /\
  g_editedSec (g reorderStopBackend) = Fin 0 /\
  exists os,
    last (out reorderStopBackend) (EvEnded "") = EvPosition "a" (Fin 0) os /\
    deqb os (Fin 0.6) = true /\
    deqb os (editedToOriginal (segments reorderStopBackend) (Fin 0)) = true /\
    deqb os (tr_position (transport reorderStopBackend)) = false.
Proof.
  split; [reflexivity|]. split; [reflexivity|].
  eexists. split; [vm_compute; reflexivity|].
  split; [vm_compute; reflexivity|]. split; vm_compute; reflexivity.
Qed.

(** ** What [updateEdl] installs *)

Lemma insertSeg_cons x l : exists y r, insertSeg x l = y :: r.
Proof. destruct l as [|y r]; simpl; [eauto|]. destruct (segLess y x); eauto. Qed.

Lemma insertSeg_perm x l : Permutation (insertSeg x l) (x :: l).
Proof.
  induction l as [|y r IH]; simpl; [reflexivity|].
  destruct (segLess y x); [|reflexivity].
  transitivity (y :: x :: r); [now constructor|constructor].
Qed.

Lemma sortSegments_perm l : Permutation (sortSegments l) l.
Proof.
  induction l as [|x r IH]; simpl; [reflexivity|].
  rewrite insertSeg_perm. now constructor.
Qed.

(** The state [updateEdl] leaves behind, field by field. *)
Lemma updateEdl_eval cs rev s :
  g (exec (updateEdl cs rev) s) = g s /\
  isContiguousTimeline (exec (updateEdl cs rev) s) =
    detectContiguous cs && match flattenClips cs with [] => false | _ => true end /\
  segments (exec (updateEdl cs rev) s) =
    match flattenClips cs with
    | [] => if detectContiguous cs && dlt (Fin 0) (g_durationSec (g s))
            then [fullFileSegment (g_durationSec (g s))] else []
    | f => sortSegments f
    end.
Proof.
  unfold exec, updateEdl, bind, modify, get, ret, emit.
  destruct (flattenClips cs) as [|x l] eqn:Ef.
  - destruct (detectContiguous cs); cbn -[dlt]; [|auto].
    destruct (dlt (Fin 0) (g_durationSec (g s))); cbn -[dlt]; auto.
  - cbn. destruct (insertSeg_cons x (sortSegments l)) as (y & r & ->).
    destruct (detectContiguous cs); cbn; auto.
Qed.

(** ** Contiguity detection *)

(** The adjacent clip gaps [clips[i].startSec - clips[i-1].endSec]. *)
Fixpoint clipGaps (cs : list Clip) : list double :=
  match cs with
  | c1 :: ((c2 :: _) as r) => dsub (startSec c2) (endSec c1) :: clipGaps r
  | _ => []
  end.

(** [std::abs(gap) < 0.01] *)
Definition smallGap (gp : double) : bool := dlt (dabs gp) (Fin 0.01).

(** The spec's rule: at least two of the first [n] gaps are small. *)
Definition contiguousAmong (n : nat) (cs : list Clip) : bool :=
  Nat.leb 2 (List.length (filter smallGap (firstn n (clipGaps cs)))).

Lemma gapMatches_spec rest : forall prev i,
  gapMatches prev rest i =
  List.length (filter smallGap (firstn (5 - i) (clipGaps (prev :: rest)))).
Proof.
  induction rest as [|c r IH]; intros prev i; [now destruct (5 - i)%nat|].
  cbn [gapMatches]. destruct (Nat.ltb_spec i 5) as [Hi|Hi].
  - replace (5 - i)%nat with (S (5 - S i)) by lia.
    rewrite IH. cbn [clipGaps firstn filter]. unfold smallGap.
    destruct (dlt (dabs (dsub (startSec c) (endSec prev))) (Fin 0.01)); reflexivity.
  - now replace (5 - i)%nat with 0%nat by lia.
Qed.

Lemma detectContiguous_spec cs : detectContiguous cs = contiguousAmong 4 cs.
Proof.
  unfold detectContiguous, contiguousAmong.
  destruct cs as [|c0 [|c1 r]]; try reflexivity.
  cbn [List.length Nat.ltb Nat.leb]. rewrite gapMatches_spec. reflexivity.
Qed.

(** Six clips [0,1), [2,3), [4,5), [6,7), [7,8), [8,9): gaps 1, 1, 1, 0, 0. *)
Definition gapClip (a b : Q) : RawClip :=
  mkRawClip "c" (Fin a) (Fin b) NaN NaN "" "speech" [rawWord 0 0.5].

Definition lateGapsPayload : list RawClip :=
  [gapClip 0 1; gapClip 2 3; gapClip 4 5; gapClip 6 7; gapClip 7 8; gapClip 8 9].

Definition lateGapsBackend : Backend :=
  exec (handle (CmdUpdateEdl lateGapsPayload 1)) initialBackend.

(** Claim C5 fails as stated: two of the first five gaps are below 10 ms,
    yet the mode is standard, since the loop stops at [i < 5] and so
    inspects only the first four gaps. *)
Lemma contiguity_five_gaps_counterexample :
  contiguousAmong 5 (parseClipsFromJsonPayload lateGapsPayload) = true /\
  isContiguousTimeline lateGapsBackend = false /\
  last (out lateGapsBackend) (EvEnded "") = EvEdlApplied "" 1 6 0 6 "standard".
Proof. vm_compute. auto. Qed.

(** Claim C5 (amended): updateEdl derives contiguous mode iff at least two
    of the first FOUR adjacent clip gaps (among the first five clips) have
    absolute value below 10 ms and the flattened snapshot is non-empty;
    otherwise the mode is standard. *)
Theorem updateEdl_mode_four_gaps (cs : list Clip) (rev : Z) (s : Backend) :
  isContiguousTimeline (exec (updateEdl cs rev) s) =
  contiguousAmong 4 cs && match flattenClips cs with [] => false | _ => true end.
Proof.
  destruct (updateEdl_eval cs rev s) as (_ & H & _).
  rewrite H, detectContiguous_spec. reflexivity.
Qed.

(** ** The fallback of [updateEdl] *)

(** Three abutting clips [0,1), [1,2), [2,3) without original intervals,
    each holding one segment [0,1). *)
Definition abuttingPayload : list RawClip :=
  [mkRawClip "c1" (Fin 0) (Fin 1) NaN NaN "" "speech" [rawWord 0 1];
   mkRawClip "c2" (Fin 1) (Fin 2) NaN NaN "" "speech" [rawWord 0 1];
   mkRawClip "c3" (Fin 2) (Fin 3) NaN NaN "" "speech" [rawWord 0 1]].

Definition abuttingBackend : Backend :=
  exec (handle (CmdUpdateEdl abuttingPayload 1)) initialBackend.

(** Three abutting clips at the end of the 24 h range: every segment
    start is clamped to 86400 s, so no segment survives flattening. *)
Definition clampedPayload : list RawClip :=
  [mkRawClip "c1" (Fin 86399.7) (Fin 86399.8) NaN NaN "" "speech" [rawWord 1 2];
   mkRawClip "c2" (Fin 86399.8) (Fin 86399.9) NaN NaN "" "speech" [rawWord 1 2];
   mkRawClip "c3" (Fin 86399.9) (Fin 86400) NaN NaN "" "speech" [rawWord 1 2]].

(** Claim C4 fails as stated: the payload supplies no original interval
    anywhere, the mode is contiguous and the snapshot is non-empty, yet
    [updateEdl] keeps contiguous mode and the three flattened segments; it
    installs no full-file segment. *)
Lemma fallback_nonempty_counterexample :
  forallb (fun c => negb (clip_hasOriginal c) &&
                    forallb (fun sg => negb (hasOriginal sg)) (clip_segments c))
          (parseClipsFromJsonPayload abuttingPayload) = true /\
  detectContiguous (parseClipsFromJsonPayload abuttingPayload) = true /\
  isContiguousTimeline abuttingBackend = true /\
  List.length (segments abuttingBackend) = 3%nat /\
  segments abuttingBackend <> [fullFileSegment (g_durationSec (g initialBackend))].
Proof.
  split; [vm_compute; reflexivity|]. split; [vm_compute; reflexivity|].
  split; [vm_compute; reflexivity|]. split; [vm_compute; reflexivity|].
  vm_compute. discriminate.
Qed.

(** Claim C4 (amended): when the derived mode is contiguous, [updateEdl]
    falls back to standard mode exactly when the flattened snapshot is
    empty; it then installs the full-file identity segment [0, duration)
    with originals [0, duration) if the duration is positive, and nothing
    otherwise. A non-empty snapshot is installed (sorted) in contiguous
    mode, whether or not the payload supplied original intervals. *)
Theorem updateEdl_contiguous_fallback (cs : list Clip) (rev : Z) (s : Backend)
  (Hcont : detectContiguous cs = true) :
  (isContiguousTimeline (exec (updateEdl cs rev) s) = false <-> flattenClips cs = []) /\
  (flattenClips cs = [] ->
     segments (exec (updateEdl cs rev) s) =
       if dlt (Fin 0) (g_durationSec (g s))
       then [fullFileSegment (g_durationSec (g s))] else []) /\
  (flattenClips cs <> [] ->
     Permutation (segments (exec (updateEdl cs rev) s)) (flattenClips cs)).
Proof.
  destruct (updateEdl_eval cs rev s) as (_ & Hm & Hs).
  rewrite Hm, Hs, Hcont. simpl andb.
  destruct (flattenClips cs) as [|x l].
  - split; [tauto|]. split; [reflexivity|]. intros []; reflexivity.
  - split; [split; discriminate|]. split; [discriminate|].
    intros _. apply sortSegments_perm.
Qed.

Lemma updateEdl_contiguous_fallback_witness :
  detectContiguous (parseClipsFromJsonPayload clampedPayload) = true /\
  (isContiguousTimeline (exec (updateEdl (parseClipsFromJsonPayload clampedPayload) 1)
                              initialBackend) = false <->
   flattenClips (parseClipsFromJsonPayload clampedPayload) = []) /\
  (flattenClips (parseClipsFromJsonPayload clampedPayload) = [] ->
     segments (exec (updateEdl (parseClipsFromJsonPayload clampedPayload) 1) initialBackend) =
       if dlt (Fin 0) (g_durationSec (g initialBackend))
       then [fullFileSegment (g_durationSec (g initialBackend))] else []) /\
  (flattenClips (parseClipsFromJsonPayload clampedPayload) <> [] ->
     Permutation (segments (exec (updateEdl (parseClipsFromJsonPayload clampedPayload) 1)
                                 initialBackend))
                 (flattenClips (parseClipsFromJsonPayload clampedPayload))).
Proof.
  split; [vm_compute; reflexivity|].
  apply (updateEdl_contiguous_fallback (parseClipsFromJsonPayload clampedPayload) 1
           initialBackend).
  vm_compute; reflexivity.
Defined.

(** ** Durations and original intervals of the flattened segments *)

Lemma sanitizeTime_fb_range x c :
  0 <= c -> c <= kMaxReasonableTime ->
  exists r, sanitizeTime x (Fin c) = Fin r /\ 0 <= r /\ r <= kMaxReasonableTime.
Proof.
  intros H0 H1. destruct x as [q| | |]; [apply sanitizeTime_range| | |];
    exists c; auto.
Qed.

Lemma sanitizeDuration_pos x :
  dle (sanitizeDuration x) (Fin 0) = false ->
  exists q, x = Fin q /\ sanitizeDuration x = Fin q /\ kMinDuration <= q.
Proof.
  destruct (sanitizeDuration_cases x) as [H | (q & Hx & Hq & H)]; rewrite H.
  - discriminate.
  - intros _. exists q. auto.
Qed.

Lemma flatOriginals_start ctd cho co cod seg st en td :
  0 <= co -> co <= kMaxReasonableTime -> 0 <= st -> st <= kMaxReasonableTime ->
  exists a, fst (flatOriginals ctd cho (Fin co) cod seg (Fin st) en td) = Fin a /\ 0 <= a.
Proof.
  intros Hc0 Hc1 Hs0 Hs1. unfold flatOriginals. cbv zeta.
  destruct (hasOriginal seg).
  - destruct (sanitizeTime_fb_range (seg_originalStart seg) st Hs0 Hs1) as (a & Ea & Ha & _).
    rewrite Ea. destruct (dlt (Fin 0) _); simpl; eauto.
  - destruct (cho && dlt (Fin 0) cod); cbn [fst]; [|eauto].
    destruct (sanitizeTime_fb_range
                (dadd (Fin co) (dmul (dmin (Fin 1) (dmax (Fin 0) (ddiv (seg_start seg) ctd))) cod))
                co Hc0 Hc1) as (a & Ea & Ha & _).
    rewrite Ea. eauto.
Qed.

(** A segment that survives flattening has an edited duration of at least
    100 us and an original interval of at least 100 us starting at or
    after 0. *)
Lemma flattenSegment_ok c ctd cho co cod seg f :
  0 <= c -> c <= kMaxReasonableTime -> 0 <= co -> co <= kMaxReasonableTime ->
  flattenSegment (Fin c) ctd cho (Fin co) cod seg = Some f ->
  (exists q, seg_dur f = Fin q /\ kMinDuration <= q) /\
  (exists a b, seg_originalStart f = Fin a /\ seg_originalEnd f = Fin b /\
               0 <= a /\ a + kMinDuration <= b).
Proof.
  intros Hc0 Hc1 Hco0 Hco1 H. unfold flattenSegment in H. cbv zeta in H.
  destruct (dle (sanitizeDuration (seg_dur seg)) (Fin 0)) eqn:E1; [discriminate|].
  apply sanitizeDuration_pos in E1 as (sd & _ & Esd & Hsd). rewrite Esd in H.
  destruct (sanitizeTime_fb_range (dadd (Fin c) (seg_start seg)) c Hc0 Hc1)
    as (st & Est & Hst0 & Hst1). rewrite Est in H.
  change (dadd (Fin st) (Fin sd)) with (Fin (st + sd)) in H.
  destruct (sanitizeTime_range (st + sd) (Fin (st + sd))) as (en & Een & Hen0 & Hen1).
  rewrite Een in H.
  destruct (dle (sanitizeDuration (dsub (Fin en) (Fin st))) (Fin 0)) eqn:E2; [discriminate|].
  apply sanitizeDuration_pos in E2 as (td & Htd & Etd & Htdk). rewrite Etd in H.
  simpl in Htd. injection Htd as Htd.
  destruct (flatOriginals_start ctd cho co cod seg st (Fin en) (Fin td) Hco0 Hco1 Hst0 Hst1)
    as (a & Ea & Ha).
  destruct (flatOriginals ctd cho (Fin co) cod seg (Fin st) (Fin en) (Fin td)) as [os oe].
  simpl in Ea. subst os.
  destruct (dle (sanitizeDuration (dsub oe (Fin a))) (Fin 0)) eqn:E3;
    injection H as <-; cbn [seg_dur seg_originalStart seg_originalEnd];
    (split; [exists td; auto|]).
  - subst td. exists st, en. repeat split; try reflexivity; lra.
  - apply sanitizeDuration_pos in E3 as (x & Hx & _ & Hxk).
    destruct oe as [b| | |]; try discriminate. simpl in Hx. injection Hx as Hx.
    subst x. exists a, b. repeat split; try reflexivity; lra.
Qed.

Lemma filter_some_in {A B} (f : A -> option B) l y :
  In y (filter_some f l) -> exists x, In x l /\ f x = Some y.
Proof.
  induction l as [|x r IH]; simpl; [tauto|].
  destruct (f x) as [z|] eqn:E.
  - intros [<- | Hy]; [eauto|]. destruct (IH Hy) as (x' & ? & ?); eauto.
  - intros Hy. destruct (IH Hy) as (x' & ? & ?); eauto.
Qed.

Lemma flattenClips_ok cs f :
  In f (flattenClips cs) ->
  (exists q, seg_dur f = Fin q /\ kMinDuration <= q) /\
  (exists a b, seg_originalStart f = Fin a /\ seg_originalEnd f = Fin b /\
               0 <= a /\ a + kMinDuration <= b).
Proof.
  unfold flattenClips. rewrite in_flat_map. intros (clip & _ & Hf).
  unfold flattenClip in Hf. cbv zeta in Hf.
  destruct (sanitizeTime_zero_range (startSec clip)) as (c & Ec & Hc0 & Hc1).
  rewrite Ec in Hf.
  destruct (dle _ (Fin 0)); [contradiction|].
  apply filter_some_in in Hf as (seg & _ & Hseg).
  destruct (clip_hasOriginal clip).
  - destruct (sanitizeTime_fb_range (originalStartSec clip) c Hc0 Hc1) as (co & Eco & Hco0 & Hco1).
    rewrite Eco in Hseg. exact (flattenSegment_ok c _ _ co _ seg f Hc0 Hc1 Hco0 Hco1 Hseg).
  - pose proof kMaxReasonableTime_pos; pose proof kMinDuration_pos.
    refine (flattenSegment_ok c _ _ 0 _ seg f Hc0 Hc1 _ _ Hseg); lra.
Qed.

(** Every installed segment was flattened from the clips, or is the
    fallback segment. *)
Lemma updateEdl_segments_in cs rev s seg :
  In seg (segments (exec (updateEdl cs rev) s)) ->
  In seg (flattenClips cs) \/ seg = fullFileSegment (g_durationSec (g s)).
Proof.
  destruct (updateEdl_eval cs rev s) as (_ & _ & ->).
  destruct (flattenClips cs) as [|x l].
  - destruct (_ && _); simpl; [intros [<- | []]; auto | tauto].
  - intros H. left. eapply Permutation_in; [apply sortSegments_perm | exact H].
Qed.

Lemma parseSegment_ok rs seg :
  parseSegment rs = Some seg ->
  notNaN (raw_startSec rs) = true /\ isfinite (raw_endSec rs) = true /\
  exists q, seg_dur seg = Fin q /\ kMinDuration <= q.
Proof.
  unfold parseSegment. cbv zeta.
  destruct (notNaN (raw_startSec rs)) eqn:E1; [|discriminate].
  destruct (notNaN (raw_endSec rs)) eqn:E2; [|discriminate]. simpl negb. cbv iota.
  destruct (sanitizeTime_zero_range (raw_startSec rs)) as (a & Ea & _). rewrite Ea.
  destruct (dle (sanitizeDuration (dsub (sanitizeTime (raw_endSec rs) (Fin a)) (Fin a))) (Fin 0))
    eqn:E3; [discriminate|].
  apply sanitizeDuration_pos in E3 as (q & Hq & Eq & Hqk). rewrite Eq.
  destruct (_ && _); [destruct (dle _ _)|]; intros H; injection H as <-;
    (split; [reflexivity|]); (split; [|exists q; auto]).
  all: destruct (raw_endSec rs) as [b| | |]; try reflexivity; simpl in Hq;
       injection Hq as Hq; pose proof kMinDuration_pos; exfalso;
       subst q; lra.
Qed.

(** A segment parsing keeps starts at its sanitised [startSec]. *)
Lemma parseSegment_start rs seg :
  parseSegment rs = Some seg -> seg_start seg = sanitizeTime (raw_startSec rs) (Fin 0).
Proof.
  unfold parseSegment. cbv zeta.
  destruct (negb _); [discriminate|].
  destruct (dle _ _); [discriminate|].
  destruct (_ && _); [destruct (dle _ _)|]; intro H; injection H as <-; reflexivity.
Qed.

(** A finite [endSec] of at least 100 us stays at least 100 us once
    sanitised. *)
Lemma sanitizeTime_at_least_min b fb :
  kMinDuration <= b -> exists r, sanitizeTime (Fin b) fb = Fin r /\ kMinDuration <= r.
Proof.
  intro Hb. pose proof kMinDuration_pos as Hk.
  pose proof kMaxReasonableTime_pos as Hm.
  unfold sanitizeTime; simpl.
  rewrite (Qltb_false b 0) by lra. simpl.
  destruct (Qltb kMaxReasonableTime b) eqn:E.
  - exists kMaxReasonableTime. split; [reflexivity|].
    apply Qlt_le_weak, kMaxReasonableTime_pos.
  - exists b. split; [reflexivity|exact Hb].
Qed.

(** A segment whose [startSec] is infinite or negative and whose [endSec]
    is finite and at least 100 us is kept by parsing, with start 0. *)
Lemma parseSegment_bad_start rs b :
  (raw_startSec rs = PInf \/ raw_startSec rs = NInf \/
   exists a, raw_startSec rs = Fin a /\ a < 0) ->
  raw_endSec rs = Fin b -> kMinDuration <= b ->
  exists seg, parseSegment rs = Some seg /\ seg_start seg = Fin 0.
Proof.
  intros Hs Hb Hk.
  assert (H0 : notNaN (raw_startSec rs) = true /\ sanitizeTime (raw_startSec rs) (Fin 0) = Fin 0).
  { destruct Hs as [->|[->|(a & -> & Ha)]]; [split; reflexivity|split; reflexivity|].
    unfold notNaN, sanitizeTime; simpl. rewrite Qeq_bool_refl, (Qltb_true a 0 Ha).
    split; reflexivity. }
  destruct H0 as [Hn Hz].
  destruct (sanitizeTime_at_least_min b (Fin 0) Hk) as (r & Er & Hr).
  pose proof kMinDuration_pos.
  destruct (parseSegment rs) as [seg|] eqn:E.
  - exists seg. split; [reflexivity|]. rewrite (parseSegment_start rs seg E). exact Hz.
  - exfalso. revert E. unfold parseSegment. cbv zeta.
    rewrite Hn, Hb, Hz. unfold notNaN at 1; cbn [deqb]. rewrite Qeq_bool_refl. cbn [andb negb].
    rewrite Er. cbn [dsub dadd dneg].
    rewrite sanitizeDuration_ok by lra. rewrite dle_fin_false by lra.
    destruct (_ && _); [destruct (dle _ _)|]; discriminate.
Qed.

(** ** Segment drop (C6) and original intervals (C10) *)

(** A clip [0,1) holding one segment whose [startSec] is [inf]. *)
Definition infStartPayload : list RawClip :=
  [mkRawClip "c" (Fin 0) (Fin 1) NaN NaN "" "speech"
     [mkRawSegment "word" PInf (Fin 0.5) NaN NaN "inf"]].

Definition infStartBackend : Backend :=
  exec (handle (CmdUpdateEdl infStartPayload 1)) initialBackend.

(** A 1-sample, 48 kHz file is loaded, then an edit whose segments are all
    dropped by flattening (the contiguous [clampedPayload]). *)
Definition tinyFallbackBackend : Backend :=
  exec (run [CmdLoad "a" (Readable (Fin 48000) 1 1); CmdUpdateEdl clampedPayload 1])
    initialBackend.

(** Claim C6 fails as stated: a segment whose [startSec] is infinite is not
    dropped; parsing replaces the start by 0 and the snapshot holds it as
    [0, 0.5). *)
Lemma inf_start_counterexample :
  isfinite (raw_startSec (hd (mkRawSegment "" NaN NaN NaN NaN "")
                             (rawc_segments (hd overlapRawClip infStartPayload)))) = false /\
  List.length (segments infStartBackend) = 1%nat /\
  seg_text (hd (fullFileSegment NaN) (segments infStartBackend)) = "inf"%string /\
  deqb (seg_start (hd (fullFileSegment NaN) (segments infStartBackend))) (Fin 0) = true /\
  deqb (seg_end (hd (fullFileSegment NaN) (segments infStartBackend))) (Fin 0.5) = true.
Proof. vm_compute. repeat split. Qed.

(** Claim C6 (amended): parsing drops a segment whose [startSec] or
    [endSec] is NaN, whose [endSec] is infinite, or whose sanitised edited
    duration is below 100 us; a kept segment starts at its sanitised
    [startSec], so a segment with an infinite or negative [startSec] and a
    finite [endSec] of at least 100 us is not dropped but gets start 0;
    every segment [updateEdl] flattens from the clips has an edited
    duration of at least 100 us, and the only other segment it can install
    is the fallback [0, durationSec). *)
Theorem segment_drop_min_duration :
  (forall rs seg, parseSegment rs = Some seg ->
     notNaN (raw_startSec rs) = true /\ isfinite (raw_endSec rs) = true /\
     exists q, seg_dur seg = Fin q /\ kMinDuration <= q) /\
  (forall rs seg, parseSegment rs = Some seg ->
     seg_start seg = sanitizeTime (raw_startSec rs) (Fin 0)) /\
  (forall rs b,
     (raw_startSec rs = PInf \/ raw_startSec rs = NInf \/
      exists a, raw_startSec rs = Fin a /\ a < 0) ->
     raw_endSec rs = Fin b -> kMinDuration <= b ->
     exists seg, parseSegment rs = Some seg /\ seg_start seg = Fin 0) /\
  (forall cs rev s seg, In seg (segments (exec (updateEdl cs rev) s)) ->
     (exists q, seg_dur seg = Fin q /\ kMinDuration <= q) \/
     seg = fullFileSegment (g_durationSec (g s))).
Proof.
  split; [exact parseSegment_ok|].
  split; [exact parseSegment_start|].
  split; [exact parseSegment_bad_start|].
  intros cs rev s seg H. apply updateEdl_segments_in in H as [H | H]; [|auto].
  left. exact (proj1 (flattenClips_ok cs seg H)).
Qed.

Lemma segment_drop_min_duration_witness :
  parseSegment (rawWord 0 1) = Some (mkSegment "word" (Fin 0) (Fin (0 + (1 + - 0))) (Fin (1 + - 0)) "w" minusOne minusOne) /\
  (notNaN (raw_startSec (rawWord 0 1)) = true /\ isfinite (raw_endSec (rawWord 0 1)) = true /\
   exists q, seg_dur (mkSegment "word" (Fin 0) (Fin (0 + (1 + - 0))) (Fin (1 + - 0)) "w" minusOne minusOne) = Fin q /\
             kMinDuration <= q) /\
  (exists seg, parseSegment (mkRawSegment "word" PInf (Fin 0.5) NaN NaN "inf") = Some seg /\
               seg_start seg = Fin 0).
Proof.
  split; [reflexivity|]. split.
  - apply (proj1 segment_drop_min_duration (rawWord 0 1)). reflexivity.
  - apply (proj1 (proj2 (proj2 segment_drop_min_duration))
             (mkRawSegment "word" PInf (Fin 0.5) NaN NaN "inf") 0.5);
      [left; reflexivity | reflexivity | unfold kMinDuration; vm_compute; intro; discriminate].
Defined.

(** Claim C10 fails as stated: after a 1-sample 48 kHz file is loaded, an
    edit whose segments are all dropped makes [updateEdl] install the
    fallback segment [0, 1/48000), whose original interval is shorter than
    100 us. *)
Lemma short_fallback_counterexample :
  segments tinyFallbackBackend = [fullFileSegment (g_durationSec (g tinyFallbackBackend))] /\
  deqb (g_durationSec (g tinyFallbackBackend)) (Fin (1 # 48000)) = true /\
  exists a b, seg_originalStart (fullFileSegment (g_durationSec (g tinyFallbackBackend))) = Fin a /\
              seg_originalEnd (fullFileSegment (g_durationSec (g tinyFallbackBackend))) = Fin b /\
              b - a < kMinDuration.
Proof.
  split; [vm_compute; reflexivity|]. split; [vm_compute; reflexivity|].
  exists 0, (1 # 48000). split; [reflexivity|]. split; [vm_compute; reflexivity|].
  unfold kMinDuration. vm_compute. reflexivity.
Qed.

(** Claim C10 (amended): after every [updateEdl], each installed segment
    flattened from the clips carries an original interval with
    0 <= originalStart and originalEnd - originalStart >= 100 us (the edited
    interval replacing an absent or invalid one); the only other installed
    segment is the fallback [0, durationSec) with originals [0, durationSec). *)
Theorem installed_originals_usable (cs : list Clip) (rev : Z) (s : Backend) (seg : Segment)
  (Hin : In seg (segments (exec (updateEdl cs rev) s))) :
  seg = fullFileSegment (g_durationSec (g s)) \/
  exists a b, seg_originalStart seg = Fin a /\ seg_originalEnd seg = Fin b /\
              0 <= a /\ a + kMinDuration <= b.
Proof.
  apply updateEdl_segments_in in Hin as [H | H]; [|auto].
  right. exact (proj2 (flattenClips_ok cs seg H)).
Qed.

Lemma installed_originals_usable_witness :
  In (hd (fullFileSegment NaN) (segments abuttingBackend)) (segments abuttingBackend) /\
  (hd (fullFileSegment NaN) (segments abuttingBackend) =
     fullFileSegment (g_durationSec (g initialBackend)) \/
   exists a b, seg_originalStart (hd (fullFileSegment NaN) (segments abuttingBackend)) = Fin a /\
               seg_originalEnd (hd (fullFileSegment NaN) (segments abuttingBackend)) = Fin b /\
               0 <= a /\ a + kMinDuration <= b).
Proof.
  split; [vm_compute; left; reflexivity|].
  apply (installed_originals_usable (parseClipsFromJsonPayload abuttingPayload) 1
           initialBackend).
  vm_compute. left. reflexivity.
Defined.

(** ** Properties of the timer-driven playback *)

(** A segment whose fields are finite and whose original span is not
    empty: [segmentFor] does not skip it. *)
Definition validSeg (s : Segment) : bool :=
  finiteSeg s && negb (dle (seg_odur s) (Fin 0)).

Lemma seg_odur_pos s :
  dle (seg_odur s) (Fin 0) = false -> exists x, seg_odur s = Fin x /\ 0 < x.
Proof.
  intro H. destruct (sanitizeDuration_nonneg (dsub (seg_oe s) (seg_os s))) as (x & Ex & Hx).
  unfold seg_odur in *. rewrite Ex in *. exists x. split; [reflexivity|].
  destruct (Qlt_le_dec 0 x) as [?|Hle]; [assumption|].
  rewrite dle_fin_true in H by lra. discriminate.
Qed.

Lemma segmentFor_loop_hit segs s a : forall i,
  In s segs -> validSeg s = true -> seg_os s = Fin a ->
  segmentFor_loop (Fin a) i segs <> None.
Proof.
  induction segs as [|s' rest IH]; intros i Hin Hv Ha; [destruct Hin|].
  simpl. destruct Hin as [-> | Hin].
  - unfold validSeg in Hv. apply andb_true_iff in Hv as [_ Hv]. apply negb_true_iff in Hv.
    rewrite Hv. destruct (seg_odur_pos s Hv) as (x & Ex & Hx). rewrite Ha, Ex.
    rewrite (dle_fin_true a a) by lra. simpl.
    rewrite (Qltb_true a (a + x)) by lra. simpl. discriminate.
  - destruct (dle (seg_odur s') (Fin 0)); [now apply IH|].
    destruct (_ && _); [discriminate|now apply IH].
Qed.

Lemma segmentFor_hit segs s :
  In s segs -> validSeg s = true -> segmentFor segs (seg_os s) <> None.
Proof.
  intros Hin Hv. pose proof Hv as Hv'. unfold validSeg in Hv'.
  apply andb_true_iff in Hv' as [Hf _].
  destruct (proj1 (finiteSeg_os_range s Hf)) as (a & Ea & Ha0 & Ha1).
  unfold segmentFor. rewrite Ea, sanitizeTime_in by assumption.
  now apply (segmentFor_loop_hit segs s a 0).
Qed.

Lemma findNextOs_in segs pos os :
  findNextOs segs pos = Some os -> exists s, In s segs /\ os = seg_os s.
Proof.
  induction segs as [|s rest IH]; simpl; [discriminate|].
  destruct (dlt pos (seg_os s)).
  - intros [= <-]. eauto.
  - intros H. destruct (IH H) as (s' & ? & ?). eauto.
Qed.

Lemma stdLoop_found n front segs p s :
  segmentFor segs p <> None ->
  stdLoop (S n) front segs p s = (None, exec endPlayback s).
Proof.
  intro H. revert s. induction n as [|n IH]; intro s;
    cbn [stdLoop]; destruct (segmentFor segs p) eqn:E; try congruence.
  - reflexivity.
  - pose proof (IH s) as Hs. cbn [stdLoop] in Hs. rewrite E in Hs. exact Hs.
Qed.

Lemma endPlayback_eval s :
  exec endPlayback s =
  set_out (out s ++ [EvEnded (g_id (g s))])
    (set_g (set_g_playing false (g s)) (set_transport (set_tr_playing false (transport s)) s)).
Proof. reflexivity. Qed.

Lemma stdLoop_S r front segs pos :
  stdLoop (S r) front segs pos =
  match segmentFor segs pos with
  | None =>
      if dlt pos (seg_os front) then
        modify_transport (set_tr_position (seg_os front)) ;; stdLoop r front segs (seg_os front)
      else
        match findNextOs segs pos with
        | Some os => modify_transport (set_tr_position os) ;; stdLoop r front segs os
        | None => endPlayback ;; ret None
        end
  | Some _ => match r with O => endPlayback ;; ret None | _ => stdLoop r front segs pos end
  end.
Proof. reflexivity. Qed.

(** Ten rounds of the standard handler's loop, on a list of valid
    segments, always end playback: a jump lands on a segment's original
    start, which [segmentFor] then finds, and a found segment only counts
    iterations until the limit. *)
Lemma stdLoop_ends front segs pos s :
  In front segs -> forallb validSeg segs = true ->
  exists p, stdLoop 10 front segs pos s =
            (None, exec endPlayback (set_transport (set_tr_position p (transport s)) s))
         \/ stdLoop 10 front segs pos s = (None, exec endPlayback s).
Proof.
  intros Hf Hv. rewrite forallb_forall in Hv.
  rewrite stdLoop_S. destruct (segmentFor segs pos) as [i|] eqn:E.
  - exists pos. right. rewrite <- (stdLoop_found 8 front segs pos s) by congruence.
    rewrite stdLoop_S, E. reflexivity.
  - destruct (dlt pos (seg_os front)).
    + exists (seg_os front). left. unfold bind at 1, modify_transport, modify.
      apply stdLoop_found. apply segmentFor_hit; auto.
    + destruct (findNextOs segs pos) as [os|] eqn:En.
      * destruct (findNextOs_in segs pos os En) as (sg & Hin & ->).
        exists (seg_os sg). left. unfold bind at 1, modify_transport, modify.
        apply stdLoop_found. apply segmentFor_hit; auto.
      * exists pos. right. reflexivity.
Qed.

Lemma sanitizeTime_idem x fb :
  sanitizeTime (sanitizeTime x (Fin 0)) fb = sanitizeTime x (Fin 0).
Proof.
  destruct (sanitizeTime_zero_range x) as (r & Er & H0 & H1). rewrite Er.
  now apply sanitizeTime_in.
Qed.

(** A backend playing the reordering timeline in standard mode. *)
Definition playingStandard : Backend :=
  set_g (mkG "a" true (Fin 0) (Fin 1))
    (set_transport (mkTransport (Fin 0.2) true (Fin 1))
       (set_readerSource true (set_segments reorderTimeline initialBackend))).

(** In standard mode, a timer tick while playing a non-empty list of valid
    segments (finite fields, non-empty original span) always ends playback:
    the transport and the playing flag are cleared and exactly one [ended]
    event is emitted, wherever the transport is. *)
Theorem standard_tick_ends (s : Backend)
  (Hplay : g_playing (g s) = true) (Hstd : isContiguousTimeline s = false)
  (Hne : segments s <> []) (Hvalid : forallb validSeg (segments s) = true) :
  g_playing (g (exec hiResTimerCallback s)) = false /\
  tr_playing (transport (exec hiResTimerCallback s)) = false /\
  out (exec hiResTimerCallback s) = out s ++ [EvEnded (g_id (g s))].
Proof.
  unfold exec, hiResTimerCallback, handleStandardTimelinePlayback.
  cbv beta iota zeta delta [bind get]. rewrite Hplay, Hstd. cbn [negb]. cbv beta iota.
  destruct (segments s) as [|front rest] eqn:Es; [congruence|].
  destruct (stdLoop_ends front (front :: rest) (sanitizeTime (tr_position (transport s)) (Fin 0))
              s (or_introl eq_refl) Hvalid) as (p & [H|H]); rewrite H; cbn; auto.
Qed.

Lemma standard_tick_ends_witness :
  g_playing (g (exec hiResTimerCallback playingStandard)) = false /\
  tr_playing (transport (exec hiResTimerCallback playingStandard)) = false /\
  out (exec hiResTimerCallback playingStandard) =
    out playingStandard ++ [EvEnded (g_id (g playingStandard))].
Proof.
  apply standard_tick_ends; [reflexivity | reflexivity | discriminate | vm_compute; reflexivity].
Defined.

(** In standard mode with no segments, a tick while playing ends playback
    once the (sanitised) transport position reaches [durationSec]; before
    that it sets the edited playhead to the transport position and reports
    it as both edited and original time. *)
Theorem standard_tick_no_segments (s : Backend)
  (Hplay : g_playing (g s) = true) (Hstd : isContiguousTimeline s = false)
  (Hnil : segments s = []) :
  let p := sanitizeTime (tr_position (transport s)) (Fin 0) in
  (dle (g_durationSec (g s)) p = true ->
     g_playing (g (exec hiResTimerCallback s)) = false /\
     out (exec hiResTimerCallback s) = out s ++ [EvEnded (g_id (g s))]) /\
  (dle (g_durationSec (g s)) p = false ->
     g_playing (g (exec hiResTimerCallback s)) = true /\
     g_editedSec (g (exec hiResTimerCallback s)) = p /\
     out (exec hiResTimerCallback s) = out s ++ [EvPosition (g_id (g s)) p p]).
Proof.
  intro p. unfold exec, hiResTimerCallback, handleStandardTimelinePlayback.
  cbv beta iota zeta delta [bind get]. rewrite Hplay, Hstd. cbn [negb]. cbv beta iota.
  rewrite Hnil. fold p. split; intro Hd; rewrite Hd.
  - cbn. auto.
  - cbn -[sanitizeTime]. rewrite Hnil. cbn [editedToOriginal originalToEdited].
    unfold p. rewrite !sanitizeTime_idem. auto.
Qed.

Lemma standard_tick_no_segments_witness :
  g_playing (g (exec hiResTimerCallback
     (set_segments [] playingStandard))) = true /\
  g_editedSec (g (exec hiResTimerCallback (set_segments [] playingStandard))) = Fin 0.2 /\
  out (exec hiResTimerCallback (set_segments [] playingStandard)) =
    [EvPosition "a" (Fin 0.2) (Fin 0.2)].
Proof.
  destruct (standard_tick_no_segments (set_segments [] playingStandard) eq_refl eq_refl eq_refl)
    as [_ H]. apply H. vm_compute. reflexivity.
Defined.

Lemma editedToOriginal_sanitized segs x :
  editedToOriginal segs (sanitizeTime x (Fin 0)) = editedToOriginal segs x.
Proof. destruct segs; unfold editedToOriginal; now rewrite sanitizeTime_idem. Qed.

(** A backend that has just installed the reordering timeline in contiguous
    mode and plays from edited time 0.5. *)
Definition playingContiguous : Backend :=
  set_isContiguousTimeline true (set_contiguousInitialized false
    (set_g (mkG "a" true (Fin 0.5) (Fin 1))
      (set_transport (mkTransport (Fin 0.5) true (Fin 1))
        (set_readerSource true (set_segments reorderTimeline initialBackend))))).

(** In contiguous mode, the first tick after [updateEdl] (when the first
    segment has an original interval) does not advance playback: it moves
    the transport to the original time of the edited playhead, marks the
    timeline initialised, keeps playing and reports that same original
    time in its one position event. *)
Theorem contiguous_first_tick (s : Backend)
  (Hplay : g_playing (g s) = true) (Hcont : isContiguousTimeline s = true)
  (Hinit : contiguousInitialized s = false)
  (Hfirst : match segments s with s0 :: _ => hasOriginal s0 = true | [] => False end) :
  let o := sanitizeTime (editedToOriginal (segments s) (g_editedSec (g s))) (Fin 0) in
  tr_position (transport (exec hiResTimerCallback s)) = o /\
  contiguousInitialized (exec hiResTimerCallback s) = true /\
  g_playing (g (exec hiResTimerCallback s)) = true /\
  g_editedSec (g (exec hiResTimerCallback s)) = g_editedSec (g s) /\
  out (exec hiResTimerCallback s) =
    out s ++ [EvPosition (g_id (g s)) (sanitizeTime (g_editedSec (g s)) (Fin 0)) o].
Proof.
  intro o. unfold exec, hiResTimerCallback, handleContiguousTimelinePlayback.
  cbv beta iota zeta delta [bind get]. rewrite Hplay, Hcont. cbn [negb]. cbv beta iota.
  destruct (segments s) as [|s0 rest] eqn:Es; [contradiction|].
  rewrite Hinit, Hfirst. cbn -[sanitizeTime editedToOriginal]. rewrite Es.
  rewrite editedToOriginal_sanitized. auto.
Qed.

Lemma contiguous_first_tick_witness :
  tr_position (transport (exec hiResTimerCallback playingContiguous)) =
    sanitizeTime (editedToOriginal reorderTimeline (Fin 0.5)) (Fin 0) /\
  contiguousInitialized (exec hiResTimerCallback playingContiguous) = true /\
  g_playing (g (exec hiResTimerCallback playingContiguous)) = true /\
  g_editedSec (g (exec hiResTimerCallback playingContiguous)) = Fin 0.5 /\
  out (exec hiResTimerCallback playingContiguous) =
    [EvPosition "a" (sanitizeTime (Fin 0.5) (Fin 0))
       (sanitizeTime (editedToOriginal reorderTimeline (Fin 0.5)) (Fin 0))].
Proof. apply (contiguous_first_tick playingContiguous); reflexivity. Defined.

Lemma contFind_hit segs pos j i seg :
  contFind segs pos j = Some (i, seg) ->
  dle (c_oDur seg) (Fin 0) = false /\ dle (c_oStart seg) pos = true /\
  dlt pos (dadd (c_oStart seg) (c_oDur seg)) = true.
Proof.
  revert j. induction segs as [|s rest IH]; intros j H; simpl in H; [discriminate|].
  destruct (hasOriginal s); [|eapply IH; eauto].
  destruct (dle (c_oDur s) (Fin 0)) eqn:E0; [eapply IH; eauto|].
  destruct (dle (c_oStart s) pos && dlt pos (dadd (c_oStart s) (c_oDur s))) eqn:E1;
    [|eapply IH; eauto].
  injection H as <- <-. apply andb_true_iff in E1. tauto.
Qed.

(** The edited time the contiguous handler computes for a position inside
    a segment lies in that segment's edited interval. *)
Lemma contiguous_time_range segs p j i seg :
  contFind segs (Fin p) j = Some (i, seg) ->
  dle (c_cDur seg) (Fin 0) = false ->
  exists e,
    dadd (c_cStart seg)
      (dmul (clamp (ddiv (dsub (Fin p) (c_oStart seg)) (c_oDur seg)) (Fin 0) (Fin 1))
         (c_cDur seg)) = Fin e /\
    dle (c_cStart seg) (Fin e) = true /\ dle (Fin e) (c_cEnd seg) = true /\
    0 <= e /\ e <= kMaxReasonableTime.
Proof.
  intros Hf Hc. destruct (contFind_hit _ _ _ _ _ Hf) as (Hod & Hle & Hlt).
  pose proof kMinDuration_pos as Hk.
  assert (exists d, c_oDur seg = Fin d /\ kMinDuration <= d) as (d & Ed & Hd).
  { destruct (sanitizeDuration_cases (dsub (c_oEnd seg) (c_oStart seg)))
      as [E|(q & _ & Hq & E)]; unfold c_oDur in Hod |- *; rewrite E in Hod |- *.
    - rewrite dle_fin_true in Hod by lra. discriminate.
    - eauto. }
  rewrite Ed in Hlt |- *.
  assert (exists a, c_oStart seg = Fin a) as (a & Ea).
  { destruct (c_oStart seg) as [a| | |]; eauto; discriminate. }
  rewrite Ea. unfold dsub, ddiv, dneg, dadd.
  assert (Qeq_bool d 0 = false) as Ed0.
  { destruct (Qeq_bool d 0) eqn:E; [apply Qeq_bool_iff in E; lra|reflexivity]. }
  rewrite Ed0.
  destruct (clamp01_range ((p + - a) / d)) as (w & Ew & Hw0 & Hw1). rewrite Ew.
  destruct (sanitizeTime_zero_range (seg_start seg)) as (c & Ec & Hc0 & Hc1).
  assert (c_cStart seg = Fin c) as Ec' by exact Ec.
  destruct (sanitizeTime_fb_range (seg_end seg) c Hc0 Hc1) as (ce & Ece & Hce0 & Hce1).
  assert (c_cEnd seg = Fin ce) as Ece'.
  { unfold c_cEnd. rewrite Ec'. exact Ece. }
  assert (exists q, c_cDur seg = Fin q /\ q = ce + - c /\ kMinDuration <= q) as (q & Eq & Hq & Hqk).
  { unfold c_cDur in Hc |- *. rewrite Ece', Ec' in Hc |- *. unfold dsub, dneg, dadd in Hc |- *.
    destruct (sanitizeDuration_cases (Fin (ce + - c))) as [E|(q & Eq & Hq & E)];
      rewrite E in Hc |- *.
    - rewrite dle_fin_true in Hc by lra. discriminate.
    - injection Eq as <-. eauto. }
  rewrite Ec', Eq, Ece'. simpl. subst q.
  assert (0 <= w * (ce + - c)) by nra. assert (w * (ce + - c) <= ce + - c) by nra.
  exists (c + w * (ce + - c)). split; [reflexivity|].
  split; [apply dle_fin_true; lra|]. split; [apply dle_fin_true; lra|]. split; lra.
Qed.

(** In contiguous mode, once initialised, a tick at an original position
    inside a segment and more than 50 ms before its end sets the edited
    playhead to a time in that segment's edited interval (proportional to
    the progress in its original interval), leaves the transport and the
    segments alone, keeps playing, and reports the new playhead. *)
Theorem contiguous_interior_tick (s : Backend) (i : nat) (seg : Segment)
  (Hplay : g_playing (g s) = true) (Hcont : isContiguousTimeline s = true)
  (Hinit : contiguousInitialized s = true)
  (Hfind : contFind (segments s) (sanitizeTime (tr_position (transport s)) (Fin 0)) 0
           = Some (i, seg))
  (Hc : dle (c_cDur seg) (Fin 0) = false)
  (Hfar : dle (dsub (dadd (c_oStart seg) (c_oDur seg)) (Fin 0.05))
            (sanitizeTime (tr_position (transport s)) (Fin 0)) = false) :
  exists e,
    g_editedSec (g (exec hiResTimerCallback s)) = Fin e /\
    dle (c_cStart seg) (Fin e) = true /\ dle (Fin e) (c_cEnd seg) = true /\
    transport (exec hiResTimerCallback s) = transport s /\
    segments (exec hiResTimerCallback s) = segments s /\
    g_playing (g (exec hiResTimerCallback s)) = true /\
    out (exec hiResTimerCallback s) =
      out s ++ [EvPosition (g_id (g s)) (Fin e)
                  (sanitizeTime (editedToOriginal (segments s) (Fin e)) (Fin 0))].
Proof.
  destruct (sanitizeTime_zero_range (tr_position (transport s))) as (p & Ep & _).
  rewrite Ep in Hfind, Hfar.
  destruct (contiguous_time_range _ _ _ _ _ Hfind Hc) as (e & Ee & H1 & H2 & He0 & He1).
  destruct (contFind_hit _ _ _ _ _ Hfind) as (Hod & _).
  exists e.
  unfold exec, hiResTimerCallback, handleContiguousTimelinePlayback.
  cbv beta iota zeta delta [bind get]. rewrite Hplay, Hcont. cbn [negb]. cbv beta iota.
  rewrite Ep, Hinit.
  destruct (segments s) as [|s0 rest] eqn:Es; [discriminate|].
  cbn [negb andb]. rewrite Hfind. cbv beta iota zeta.
  rewrite Hod, Hc, Ee, Hfar. cbn -[sanitizeTime editedToOriginal]. rewrite Es.
  rewrite (sanitizeTime_in e) by assumption. auto 8.
Qed.

Lemma contiguous_interior_tick_witness :
  let s := set_contiguousInitialized true
             (set_transport (mkTransport (Fin 0.7) true (Fin 1)) playingContiguous) in
  contFind (segments s) (sanitizeTime (tr_position (transport s)) (Fin 0)) 0 =
    Some (0%nat, hd (mkSegment "" (Fin 0) (Fin 0) (Fin 0) "" (Fin 0) (Fin 0)) reorderTimeline) /\
  exists e,
    g_editedSec (g (exec hiResTimerCallback s)) = Fin e /\
    dle (c_cStart (hd (mkSegment "" (Fin 0) (Fin 0) (Fin 0) "" (Fin 0) (Fin 0)) reorderTimeline)) (Fin e) = true /\
    dle (Fin e) (c_cEnd (hd (mkSegment "" (Fin 0) (Fin 0) (Fin 0) "" (Fin 0) (Fin 0)) reorderTimeline)) = true /\
    transport (exec hiResTimerCallback s) = transport s /\
    segments (exec hiResTimerCallback s) = segments s /\
    g_playing (g (exec hiResTimerCallback s)) = true /\
    out (exec hiResTimerCallback s) =
      out s ++ [EvPosition (g_id (g s)) (Fin e)
                  (sanitizeTime (editedToOriginal (segments s) (Fin e)) (Fin 0))].
Proof.
  intro s. split; [vm_compute; reflexivity|].
  apply (contiguous_interior_tick s 0%nat); vm_compute; reflexivity.
Defined.

(** ** Properties of [load] and [seek] *)

(** A load that fails (file missing or not decodable) replaces only the
    stored id and appends one error event: the previously loaded audio, its
    segments, the transport and the playhead are kept, so later events of
    the old audio carry the new id. *)
Theorem load_failure_keeps_audio (s : Backend) (id : string) :
  exec (load id FileMissing) s =
    set_out (out s ++ [EvError "Audio file not found"]) (set_g (set_g_id id (g s)) s) /\
  exec (load id Unreadable) s =
    set_out (out s ++ [EvError "Failed to open audio file"]) (set_g (set_g_id id (g s)) s).
Proof. split; reflexivity. Qed.

Lemma Qeq_bool_false_pos x : 0 < x -> Qeq_bool x 0 = false.
Proof. intro H. destruct (Qeq_bool x 0) eqn:E; [apply Qeq_bool_iff in E; lra|reflexivity]. Qed.

(** The default timeline [load] installs maps edited time [e] in [0, d]
    to original time [e]. *)
Lemma editedToOriginal_fullFile d e :
  kMinDuration <= d -> d <= kMaxReasonableTime -> 0 <= e -> e <= d ->
  exists o, editedToOriginal [mkSegment "speech" (Fin 0) (Fin d) (Fin d) "" minusOne minusOne] (Fin e)
            = Fin o /\ o == e /\ 0 <= o /\ o <= kMaxReasonableTime.
Proof.
  intros Hd0 Hd1 He0 He1. pose proof kMinDuration_pos as Hk.
  set (sg := mkSegment "speech" (Fin 0) (Fin d) (Fin d) "" minusOne minusOne).
  assert (hasOriginal sg = false) as Ho by reflexivity.
  assert (seg_os sg = Fin 0) as Eos by (unfold seg_os; rewrite Ho; reflexivity).
  assert (seg_oe sg = Fin d) as Eoe.
  { unfold seg_oe; rewrite Ho. apply sanitizeTime_in; lra. }
  assert (seg_odur sg = Fin (d + - 0)) as Eod.
  { unfold seg_odur. rewrite Eos, Eoe. apply sanitizeDuration_ok. lra. }
  assert (seg_edur sg = Fin d) as Eed by (apply sanitizeDuration_ok; lra).
  assert (seg_skipped sg = false) as Esk.
  { unfold seg_skipped. rewrite Eod, Eed, !dle_fin_false by lra. reflexivity. }
  assert (0 <= (e + - 0) / d) as Hr0.
  { apply Qle_shift_div_l; lra. }
  assert ((e + - 0) / d <= 1) as Hr1.
  { apply Qle_shift_div_r; lra. }
  unfold editedToOriginal. rewrite (sanitizeTime_in e) by lra.
  cbn [e2o_loop]. rewrite Esk, Eed, Eos, Eod. cbn [dadd dsub dneg ddiv].
  rewrite dle_fin_true by lra. rewrite (Qeq_bool_false_pos d) by lra.
  rewrite clamp01_in by assumption. cbn [dmul dadd].
  exists (0 + (e + - 0) / d * (d + - 0)).
  assert (0 + (e + - 0) / d * (d + - 0) == e) as Eq by (field; lra).
  split; [reflexivity|]. split; [exact Eq|]. split; rewrite Eq; lra.
Qed.


(** After a successful load of a file of [len] samples at a positive
    sample rate [sr] (a duration [d = len / sr] between 100 microseconds
    and 24 hours), seeking to any edited time [e] in [0, d] puts the
    transport at original time [e] (the default timeline is the identity)
    and reports [e] for both times; playback stays stopped. *)
Theorem load_then_seek (s : Backend) (id : string) (sr : Q) (len ch : Z) (e : Q)
  (Hsr : 0 < sr) (Hlen : (0 < len)%Z)
  (Hd0 : kMinDuration <= inject_Z len / sr) (Hd1 : inject_Z len / sr <= kMaxReasonableTime)
  (He0 : 0 <= e) (He1 : e <= inject_Z len / sr) :
  exists o,
    tr_position (transport (exec (load id (Readable (Fin sr) len ch) ;; seek (Fin e)) s)) = Fin o /\
    o == e /\
    g_editedSec (g (exec (load id (Readable (Fin sr) len ch) ;; seek (Fin e)) s)) = Fin e /\
    g_durationSec (g (exec (load id (Readable (Fin sr) len ch) ;; seek (Fin e)) s)) =
      Fin (inject_Z len / sr) /\
    tr_playing (transport (exec (load id (Readable (Fin sr) len ch) ;; seek (Fin e)) s)) = false /\
    g_playing (g (exec (load id (Readable (Fin sr) len ch) ;; seek (Fin e)) s)) = false /\
    out (exec (load id (Readable (Fin sr) len ch) ;; seek (Fin e)) s) =
      out s ++ [EvLoaded id (Fin (inject_Z len / sr)) (Fin sr) ch; EvState id false;
                EvPosition id (Fin e) (Fin o)].
Proof.
  set (d := inject_Z len / sr) in *.
  pose proof kMinDuration_pos as Hk.
  assert (Hd : 0 < d) by lra.
  unfold exec, load, seek. cbv beta iota zeta delta [bind get modify modify_g modify_transport emit emitState emitPositionFromTransport].
  simpl fst; simpl snd; cbn [g_id transport tr_position g readerSource segments negb out].
  rewrite !(Qltb_true 0 sr Hsr). cbv beta iota.
  assert ((0 <? len)%Z = true) as E2 by lia. rewrite E2. cbn [andb].
  rewrite (Qeq_bool_false_pos sr Hsr). fold d.
  rewrite (Qltb_true 0 d Hd). cbv beta iota.
  rewrite (sanitizeTime_in d) by lra. rewrite (sanitizeTime_in e) by lra.
  destruct (editedToOriginal_fullFile d e) as (o & Eo & Ho & Ho0 & Ho1); try lra.
  rewrite Eo, (sanitizeTime_in o) by lra.
  exists o. cbn. rewrite <- !app_assoc. auto 10.
Qed.


Lemma load_then_seek_witness :
  exists o,
    tr_position (transport (exec (load "a" (Readable (Fin 48000) 96000 2) ;; seek (Fin 0.5)) initialBackend)) = Fin o /\
    o == 0.5 /\
    g_editedSec (g (exec (load "a" (Readable (Fin 48000) 96000 2) ;; seek (Fin 0.5)) initialBackend)) = Fin 0.5 /\
    g_durationSec (g (exec (load "a" (Readable (Fin 48000) 96000 2) ;; seek (Fin 0.5)) initialBackend)) =
      Fin (inject_Z 96000 / 48000) /\
    tr_playing (transport (exec (load "a" (Readable (Fin 48000) 96000 2) ;; seek (Fin 0.5)) initialBackend)) = false /\
    g_playing (g (exec (load "a" (Readable (Fin 48000) 96000 2) ;; seek (Fin 0.5)) initialBackend)) = false /\
    out (exec (load "a" (Readable (Fin 48000) 96000 2) ;; seek (Fin 0.5)) initialBackend) =
      out initialBackend ++ [EvLoaded "a" (Fin (inject_Z 96000 / 48000)) (Fin 48000) 2; EvState "a" false;
                EvPosition "a" (Fin 0.5) (Fin o)].
Proof.
  apply (load_then_seek initialBackend "a" 48000 96000 2 0.5);
    unfold kMinDuration, kMaxReasonableTime; vm_compute; try reflexivity; intro; discriminate.
Defined.

(** ** Properties of [updateEdl] *)

Lemma filter_split_length {A} (f : A -> bool) (l : list A) :
  (List.length (filter (fun x => negb (f x)) l) + List.length (filter f l) = List.length l)%nat.
Proof. induction l as [|x r IH]; [reflexivity|]. cbn. destruct (f x); cbn; lia. Qed.

(** [updateEdl] leaves playback alone (transport, loaded audio, playhead,
    playing flag, id and duration) and appends exactly one [edlApplied]
    event, whose word and spacer counts add up to its total, the number of
    segments in the new clips, and whose mode names the timeline mode the
    backend ends up in. *)
Theorem updateEdl_report (cs : list Clip) (rev : Z) (s : Backend) :
  transport (exec (updateEdl cs rev) s) = transport s /\
  readerSource (exec (updateEdl cs rev) s) = readerSource s /\
  g (exec (updateEdl cs rev) s) = g s /\
  currentRevision (exec (updateEdl cs rev) s) = rev /\
  exists w sp,
    (w + sp = List.length (flat_map clip_segments cs))%nat /\
    out (exec (updateEdl cs rev) s) =
      out s ++ [EvEdlApplied (g_id (g s)) rev w sp (List.length (flat_map clip_segments cs))
                  (if isContiguousTimeline (exec (updateEdl cs rev) s)
                   then "contiguous" else "standard")].
Proof.
  pose proof (filter_split_length isSpacer (flat_map clip_segments cs)) as HL.
  unfold exec, updateEdl, bind, modify, get, ret, emit.
  destruct (flattenClips cs) as [|x l] eqn:Ef.
  - destruct (detectContiguous cs); cbn -[dlt].
    + destruct (dlt (Fin 0) (g_durationSec (g s))); cbn -[dlt];
        repeat split; eauto.
    + repeat split; eauto.
  - cbn. destruct (insertSeg_cons x (sortSegments l)) as (y & r & ->).
    destruct (detectContiguous cs); cbn; repeat split; eauto.
Qed.

Lemma dlt_asym x y : dlt x y = true -> dlt y x = false.
Proof.
  destruct x as [a| | |], y as [b| | |]; simpl; try discriminate; try reflexivity.
  intro H. apply Qltb_true_inv in H. apply Qltb_false. lra.
Qed.

Lemma deqb_sym x y : deqb x y = deqb y x.
Proof.
  destruct x as [a| | |], y as [b| | |]; simpl; try reflexivity.
  destruct (Qeq_bool a b) eqn:E1, (Qeq_bool b a) eqn:E2; try reflexivity;
    apply Qeq_bool_iff in E1 || apply Qeq_bool_iff in E2;
    [rewrite (proj2 (Qeq_bool_iff b a)) in E2 by lra | rewrite (proj2 (Qeq_bool_iff a b)) in E1 by lra];
    discriminate.
Qed.

Lemma segLess_asym x y : segLess x y = true -> segLess y x = false.
Proof.
  unfold segLess. rewrite (deqb_sym (seg_start y)).
  destruct (deqb (seg_start x) (seg_start y)); apply dlt_asym.
Qed.

Lemma insertSeg_sorted x l :
  Sorted (fun a b => segLess b a = false) l ->
  Sorted (fun a b => segLess b a = false) (insertSeg x l).
Proof.
  induction l as [|y r IH]; intros H; simpl; [now repeat constructor|].
  destruct (segLess y x) eqn:E.
  - apply Sorted_inv in H as [Hr Hhd]. constructor; [now apply IH|].
    destruct r as [|z r']; simpl.
    + constructor. now apply segLess_asym.
    + destruct (segLess z x); constructor; [now inversion Hhd | now apply segLess_asym].
  - constructor; [exact H|]. now constructor.
Qed.

Lemma sortSegments_sorted l : Sorted (fun a b => segLess b a = false) (sortSegments l).
Proof. induction l as [|x r IH]; simpl; [constructor|]. now apply insertSeg_sorted. Qed.

Lemma Sorted_weaken {A} (R R2 : A -> A -> Prop) (P : A -> Prop) l :
  (forall a b, P a -> P b -> R a b -> R2 a b) ->
  Forall P l -> Sorted R l -> Sorted R2 l.
Proof.
  intros Himp. induction l as [|x r IH]; intros HP HS; [constructor|].
  apply Sorted_inv in HS as [Hr Hhd]. inversion HP as [|? ? Hx Hr']; subst.
  constructor; [now apply IH|]. destruct r as [|y r']; constructor.
  inversion Hhd; subst. inversion Hr'; subst. now apply Himp.
Qed.

Lemma flattenSegment_start c ctd cho co cod seg f :
  0 <= c -> c <= kMaxReasonableTime ->
  flattenSegment (Fin c) ctd cho co cod seg = Some f ->
  exists a, seg_start f = Fin a.
Proof.
  intros Hc0 Hc1 H. unfold flattenSegment in H. cbv zeta in H.
  destruct (dle (sanitizeDuration (seg_dur seg)) (Fin 0)); [discriminate|].
  destruct (sanitizeTime_fb_range (dadd (Fin c) (seg_start seg)) c Hc0 Hc1) as (a & Ea & _).
  rewrite Ea in H.
  destruct (dle _ (Fin 0)); [discriminate|].
  destruct (flatOriginals _ _ _ _ _ _ _ _) as [os oe].
  destruct (if dle _ (Fin 0) then _ else _) as [os' oe'].
  injection H as <-. now exists a.
Qed.

Lemma flattenClips_start cs f : In f (flattenClips cs) -> exists a, seg_start f = Fin a.
Proof.
  unfold flattenClips. rewrite in_flat_map. intros (clip & _ & Hf).
  unfold flattenClip in Hf. cbv zeta in Hf.
  destruct (sanitizeTime_zero_range (startSec clip)) as (c & Ec & Hc0 & Hc1).
  rewrite Ec in Hf.
  destruct (dle _ (Fin 0)); [contradiction|].
  apply filter_some_in in Hf as (seg & _ & Hseg).
  exact (flattenSegment_start c _ _ _ _ seg f Hc0 Hc1 Hseg).
Qed.

(** After [updateEdl] the installed segments are ordered by their edited
    start times (the list is sorted with [std::sort], and every start time
    of a flattened segment is finite). *)
Theorem updateEdl_segments_sorted (cs : list Clip) (rev : Z) (s : Backend) :
  Sorted (fun a b => dle (seg_start a) (seg_start b) = true)
    (segments (exec (updateEdl cs rev) s)).
Proof.
  destruct (updateEdl_eval cs rev s) as (_ & _ & ->).
  destruct (flattenClips cs) as [|x l] eqn:Ef.
  - destruct (_ && _); repeat constructor.
  - rewrite <- Ef.
    apply (Sorted_weaken (fun a b => segLess b a = false) _
             (fun f => exists a, seg_start f = Fin a)).
    + intros a b (qa & Ea) (qb & Eb). unfold segLess, dle. rewrite Ea, Eb. simpl.
      destruct (Qeq_bool qb qa) eqn:E.
      * intros _. apply Qeq_bool_iff in E.
        rewrite (proj2 (Qeq_bool_iff qa qb)) by lra. apply orb_true_r.
      * intros H. apply Qltb_false_inv in H.
        destruct (Qlt_le_dec qa qb) as [Hlt|Hle].
        -- now rewrite Qltb_true.
        -- rewrite (proj2 (Qeq_bool_iff qa qb)) by lra. apply orb_true_r.
    + apply Forall_forall. intros f Hf. apply (flattenClips_start cs).
      eapply Permutation_in; [apply sortSegments_perm | exact Hf].
    + apply sortSegments_sorted.
Qed.

(** ** Well-formedness of the parsed clips *)

(** An original interval as the parser leaves it: absent (both ends -1) or
    finite, starting at or after 0, at least 100 us long and within 24 h. *)
Definition validOriginals (os oe : double) : Prop :=
  (os = minusOne /\ oe = minusOne) \/
  exists a b, os = Fin a /\ oe = Fin b /\ 0 <= a /\ a + kMinDuration <= b /\
              b <= kMaxReasonableTime.

(** The choice both parsers make once the raw original times are not NaN. *)
Lemma origPair_valid os0 oe0 c :
  0 <= c -> c <= kMaxReasonableTime ->
  let os := sanitizeTime os0 (Fin c) in
  let oe := sanitizeTime oe0 os in
  let p := if dle (sanitizeDuration (dsub oe os)) (Fin 0) then (minusOne, minusOne) else (os, oe) in
  validOriginals (fst p) (snd p).
Proof.
  intros Hc0 Hc1. cbv zeta. pose proof kMinDuration_pos.
  destruct (sanitizeTime_fb_range os0 c Hc0 Hc1) as (a & Ea & Ha0 & Ha1). rewrite Ea.
  destruct (sanitizeTime_fb_range oe0 a Ha0 Ha1) as (b & Eb & Hb0 & Hb1). rewrite Eb.
  cbn [dsub dneg dadd].
  destruct (sanitizeDuration_cases (Fin (b + - a))) as [E|(q & Eq & Hq & E)]; rewrite E.
  - rewrite dle_fin_true by lra. left. auto.
  - injection Eq as <-. rewrite dle_fin_false by lra. right. exists a, b. repeat split; lra.
Qed.

Lemma validOriginals_pair (p : double * double) :
  validOriginals (fst p) (snd p) -> exists os oe, validOriginals os oe /\ p = (os, oe).
Proof. destruct p as [os oe]. eauto. Qed.

(** A parsed segment is well formed. *)
Definition wfSegment (seg : Segment) : Prop :=
  exists x d e, seg_start seg = Fin x /\ seg_dur seg = Fin d /\ seg_end seg = Fin e /\
    0 <= x /\ kMinDuration <= d /\ e == x + d /\ e <= kMaxReasonableTime /\
    validOriginals (seg_originalStart seg) (seg_originalEnd seg).

Lemma parseSegment_wf rs seg : parseSegment rs = Some seg -> wfSegment seg.
Proof.
  unfold parseSegment. cbv zeta. pose proof kMinDuration_pos. pose proof kMaxReasonableTime_pos.
  destruct (notNaN (raw_startSec rs) && notNaN (raw_endSec rs)); [|discriminate]. cbn [negb].
  destruct (sanitizeTime_zero_range (raw_startSec rs)) as (x & Ex & Hx0 & Hx1). rewrite Ex.
  destruct (sanitizeTime_fb_range (raw_endSec rs) x Hx0 Hx1) as (y & Ey & Hy0 & Hy1). rewrite Ey.
  cbn [dsub dneg dadd].
  destruct (sanitizeDuration_cases (Fin (y + - x))) as [E|(q & Eq & Hq & E)]; rewrite E.
  { rewrite dle_fin_true by lra. discriminate. }
  injection Eq as <-. rewrite dle_fin_false by lra.
  assert (exists os oe, validOriginals os oe /\
    (if notNaN (raw_originalStartSec rs) && notNaN (raw_originalEndSec rs)
     then if dle (sanitizeDuration (dsub (sanitizeTime (raw_originalEndSec rs)
                    (sanitizeTime (raw_originalStartSec rs) (Fin 0)))
                    (sanitizeTime (raw_originalStartSec rs) (Fin 0)))) (Fin 0)
          then (minusOne, minusOne)
          else (sanitizeTime (raw_originalStartSec rs) (Fin 0),
                sanitizeTime (raw_originalEndSec rs) (sanitizeTime (raw_originalStartSec rs) (Fin 0)))
     else (minusOne, minusOne)) = (os, oe)) as (os & oe & Hv & Ep).
  { destruct (_ && _).
    - apply validOriginals_pair.
      apply (origPair_valid (raw_originalStartSec rs) (raw_originalEndSec rs) 0); lra.
    - exists minusOne, minusOne. split; [left; auto | reflexivity]. }
  rewrite Ep. intro Hs. injection Hs as <-. cbn.
  exists x, (y + - x), (x + (y + - x)). repeat split; try lra; assumption.
Qed.

(** Every clip [parseClipsFromJsonPayload] returns has a finite edited
    interval of at least 100 us inside [0, 24 h], an original interval that
    is absent (-1, -1) or valid, and at least one segment; each of its
    segments has a finite start at or after 0, an edited duration of at
    least 100 us, an end equal to start plus duration within 24 h, and an
    original interval that is absent or valid. *)
Theorem parseClips_wellformed (raw : list RawClip) (c : Clip)
  (Hin : In c (parseClipsFromJsonPayload raw)) :
  (exists a b, startSec c = Fin a /\ endSec c = Fin b /\ 0 <= a /\
               a + kMinDuration <= b /\ b <= kMaxReasonableTime) /\
  validOriginals (originalStartSec c) (originalEndSec c) /\
  clip_segments c <> [] /\
  Forall wfSegment (clip_segments c).
Proof.
  apply filter_some_in in Hin as (rc & _ & H). revert H.
  unfold parseClip. cbv zeta. pose proof kMinDuration_pos.
  destruct (sanitizeTime_zero_range (rawc_startSec rc)) as (a & Ea & Ha0 & Ha1). rewrite Ea.
  destruct (sanitizeTime_fb_range (rawc_endSec rc) a Ha0 Ha1) as (b & Eb & Hb0 & Hb1). rewrite Eb.
  cbn [dsub dneg dadd].
  destruct (sanitizeDuration_cases (Fin (b + - a))) as [E|(q & Eq & Hq & E)]; rewrite E.
  { rewrite dle_fin_true by lra. discriminate. }
  injection Eq as <-. rewrite dle_fin_false by lra.
  assert (exists os oe, validOriginals os oe /\
    (if negb (notNaN (rawc_originalStartSec rc) && notNaN (rawc_originalEndSec rc))
     then (minusOne, minusOne)
     else if dle (sanitizeDuration (dsub (sanitizeTime (rawc_originalEndSec rc)
                    (sanitizeTime (rawc_originalStartSec rc) (Fin a)))
                    (sanitizeTime (rawc_originalStartSec rc) (Fin a)))) (Fin 0)
          then (minusOne, minusOne)
          else (sanitizeTime (rawc_originalStartSec rc) (Fin a),
                sanitizeTime (rawc_originalEndSec rc) (sanitizeTime (rawc_originalStartSec rc) (Fin a))))
    = (os, oe)) as (os & oe & Hv & Ep).
  { destruct (_ && _); cbn [negb].
    - apply validOriginals_pair.
      exact (origPair_valid (rawc_originalStartSec rc) (rawc_originalEndSec rc) a Ha0 Ha1).
    - exists minusOne, minusOne. split; [left; auto | reflexivity]. }
  rewrite Ep.
  assert (Forall wfSegment (filter_some parseSegment (rawc_segments rc))) as Hw.
  { apply Forall_forall. intros seg Hs. apply filter_some_in in Hs as (rs & _ & Hs).
    exact (parseSegment_wf rs seg Hs). }
  destruct (filter_some parseSegment (rawc_segments rc)) as [|s0 r] eqn:Es; [discriminate|].
  intro Hc. injection Hc as <-. cbn. split; [exists a, b; repeat split; lra|].
  split; [exact Hv|]. split; [discriminate | exact Hw].
Qed.

(** A clip with an infinite start, a segment with NaN times and one of
    60 us, next to the reordering clips. *)
Definition messyPayload : list RawClip :=
  [mkRawClip "X" PInf (Fin 2) NaN (Fin 3) "s" "speech"
     [mkRawSegment "word" NaN (Fin 1) NaN NaN "a"; rawWord 0.1 0.10006; rawWord 0.2 (-5)];
   rawClipB; rawClipA].

Definition noClip : Clip := mkClip "" (Fin 0) (Fin 0) minusOne minusOne "" "" [].

Lemma parseClips_wellformed_witness :
  In (nth 0 (parseClipsFromJsonPayload messyPayload) noClip) (parseClipsFromJsonPayload messyPayload) /\
  (exists a b, startSec (nth 0 (parseClipsFromJsonPayload messyPayload) noClip) = Fin a /\
               endSec (nth 0 (parseClipsFromJsonPayload messyPayload) noClip) = Fin b /\ 0 <= a /\
               a + kMinDuration <= b /\ b <= kMaxReasonableTime) /\
  validOriginals (originalStartSec (nth 0 (parseClipsFromJsonPayload messyPayload) noClip))
    (originalEndSec (nth 0 (parseClipsFromJsonPayload messyPayload) noClip)) /\
  clip_segments (nth 0 (parseClipsFromJsonPayload messyPayload) noClip) <> [] /\
  Forall wfSegment (clip_segments (nth 0 (parseClipsFromJsonPayload messyPayload) noClip)).
Proof.
  assert (In (nth 0 (parseClipsFromJsonPayload messyPayload) noClip)
            (parseClipsFromJsonPayload messyPayload)) as Hin by (vm_compute; left; reflexivity).
  split; [exact Hin|]. exact (parseClips_wellformed messyPayload _ Hin).
Defined.

Lemma mockTicks_idle n s : g_playing (m_g s) = false -> mockTicks n s = s.
Proof.
  revert s. induction n as [|k IH]; intros s H; [reflexivity|].
  simpl. unfold mockTick at 1. rewrite H. now apply IH.
Qed.

Lemma inject_Z_succ k :
  inject_Z (Z.of_nat (S k)) == inject_Z (Z.of_nat k) + 1.
Proof. rewrite Nat2Z.inj_succ, <- Z.add_1_r, inject_Z_plus. reflexivity. Qed.

(** In the mock, playback from edited time [e] with a finite duration [d]
    ends by the [n]-th timer tick once [e + 0.033 n >= d] ([n >= 1]): the
    ticks before report positions below [d] (each mirrored as the original
    time), then one [ended] event is emitted and later ticks emit
    nothing. *)
Theorem mock_playback_ends (s : MockState) (e d : Q) (n : nat)
  (Hp : g_playing (m_g s) = true) (He : g_editedSec (m_g s) = Fin e)
  (Hd : g_durationSec (m_g s) = Fin d)
  (Hn1 : (1 <= n)%nat) (Hn : d <= e + 0.033 * inject_Z (Z.of_nat n)) :
  g_playing (m_g (mockTicks n s)) = false /\
  exists ps, Forall (fun x => x < d) ps /\
    m_out (mockTicks n s) =
      m_out s ++ map (fun x => EvPosition (g_id (m_g s)) (Fin x) (Fin x)) ps ++
        [EvEnded (g_id (m_g s))].
Proof.
  revert s e Hp He Hd Hn Hn1. induction n as [|k IH]; intros s e Hp He Hd Hn Hn1; [lia|].
  cbn [mockTicks]. unfold mockTick. rewrite Hp. cbv zeta.
  cbn [m_setG m_g set_g_editedSec g_durationSec g_editedSec]. rewrite He, Hd. cbn [dadd].
  rewrite inject_Z_succ in Hn. set (K := inject_Z (Z.of_nat k)) in *.
  destruct (dle (Fin d) (Fin (e + 0.033))) eqn:E.
  - rewrite mockTicks_idle by reflexivity. split; [reflexivity|].
    exists []. split; [constructor|]. reflexivity.
  - assert (Hlt : e + 0.033 < d).
    { destruct (Qlt_le_dec (e + 0.033) d) as [H|H]; [exact H|].
      rewrite dle_fin_true in E by exact H. discriminate. }
    assert (Hk : (1 <= k)%nat).
    { destruct k; [|lia]. exfalso. unfold K in Hn. change (inject_Z (Z.of_nat 0)) with 0 in Hn. lra. }
    destruct (IH (m_emitPosition (m_setG (set_g_editedSec (Fin (e + 0.033))) s)) (e + 0.033))
      as (Hpl & ps & Hps & Hout); [cbn; exact Hp | reflexivity | cbn; exact Hd | lra | exact Hk |].
    split; [exact Hpl|]. exists ((e + 0.033) :: ps). split; [now constructor|].
    rewrite Hout. cbn. now rewrite <- app_assoc.
Qed.

(** A mock backend playing with duration 2 s from 0.5 s. *)
Definition mockPlaying : MockState := mkMock (mkG "m" true (Fin 0.5) (Fin 2)) [].

Lemma mock_playback_ends_witness :
  g_playing (m_g (mockTicks 50 mockPlaying)) = false /\
  exists ps, Forall (fun x => x < 2) ps /\
    m_out (mockTicks 50 mockPlaying) =
      m_out mockPlaying ++ map (fun x => EvPosition "m" (Fin x) (Fin x)) ps ++ [EvEnded "m"].
Proof.
  apply (mock_playback_ends mockPlaying 0.5 2 50); try reflexivity; [lia|].
  vm_compute. intro H; discriminate.
Defined.

Lemma mockTicks_nan n s :
  g_playing (m_g s) = true -> g_editedSec (m_g s) = NaN ->
  g_playing (m_g (mockTicks n s)) = true /\
  m_out (mockTicks n s) = m_out s ++ repeat (EvPosition (g_id (m_g s)) NaN NaN) n.
Proof.
  revert s. induction n as [|k IH]; intros s Hp He; [now rewrite app_nil_r|].
  cbn [mockTicks]. unfold mockTick. rewrite Hp. cbv zeta.
  cbn [m_setG m_g set_g_editedSec g_durationSec g_editedSec]. rewrite He.
  assert (dle (g_durationSec (m_g s)) (dadd NaN (Fin 0.033)) = false) as E
    by (destruct (g_durationSec (m_g s)); reflexivity).
  rewrite E.
  destruct (IH (m_emitPosition (m_setG (set_g_editedSec (dadd NaN (Fin 0.033))) s)))
    as (Hpl & Hout); [cbn; exact Hp | reflexivity |].
  split; [exact Hpl|]. rewrite Hout. cbn. rewrite <- app_assoc. reflexivity.
Qed.

(** In the mock, a seek to NaN ([std::stod] accepts ["nan"]) while playing
    means playback never ends: every later timer tick reports NaN as both
    times and the playing flag stays set, whatever the duration. *)
Theorem mock_nan_seek_never_ends (s : MockState) (n : nat)
  (Hp : g_playing (m_g s) = true) :
  g_playing (m_g (mockTicks n (handleLine (MSeek (Some NaN)) s))) = true /\
  m_out (mockTicks n (handleLine (MSeek (Some NaN)) s)) =
    m_out s ++ repeat (EvPosition (g_id (m_g s)) NaN NaN) (S n).
Proof.
  destruct (mockTicks_nan n (handleLine (MSeek (Some NaN)) s)) as (Hpl & Hout);
    [exact Hp | reflexivity |].
  split; [exact Hpl|]. rewrite Hout. cbn. rewrite <- app_assoc.
  change (EvPosition (g_id (m_g s)) NaN NaN :: repeat (EvPosition (g_id (m_g s)) NaN NaN) n)
    with (repeat (EvPosition (g_id (m_g s)) NaN NaN) (S n)).
  reflexivity.
Qed.

Lemma mock_nan_seek_never_ends_witness :
  g_playing (m_g (mockTicks 100 (handleLine (MSeek (Some NaN)) mockPlaying))) = true /\
  m_out (mockTicks 100 (handleLine (MSeek (Some NaN)) mockPlaying)) =
    m_out mockPlaying ++ repeat (EvPosition "m" NaN NaN) 101.
Proof. apply (mock_nan_seek_never_ends mockPlaying 100). reflexivity. Defined.

(** Steps a timer tick of a playing, initialised contiguous backend into
    the body of [handleContiguousTimelinePlayback]. *)
Ltac contiguous_tick Hplay Hcont Hinit :=
  unfold exec, hiResTimerCallback, handleContiguousTimelinePlayback;
  cbv beta iota zeta delta [bind get]; rewrite Hplay, Hcont; cbn [negb]; cbv beta iota;
  rewrite Hinit.

(** In contiguous mode, a tick within 50 ms of the end of the current
    segment, when the next segment in the list has an original interval,
    sets the edited playhead inside the current segment's edited interval,
    moves the transport to the start of the next segment's original
    interval and keeps playing. *)
Theorem contiguous_advance_tick (s : Backend) (i : nat) (seg sn : Segment)
  (Hplay : g_playing (g s) = true) (Hcont : isContiguousTimeline s = true)
  (Hinit : contiguousInitialized s = true)
  (Hfind : contFind (segments s) (sanitizeTime (tr_position (transport s)) (Fin 0)) 0
           = Some (i, seg))
  (Hc : dle (c_cDur seg) (Fin 0) = false)
  (Hnear : dle (dsub (dadd (c_oStart seg) (c_oDur seg)) (Fin 0.05))
             (sanitizeTime (tr_position (transport s)) (Fin 0)) = true)
  (Hnext : nth_error (segments s) (S i) = Some sn) (Hon : hasOriginal sn = true) :
  exists e,
    g_editedSec (g (exec hiResTimerCallback s)) = Fin e /\
    dle (c_cStart seg) (Fin e) = true /\ dle (Fin e) (c_cEnd seg) = true /\
    tr_position (transport (exec hiResTimerCallback s)) = c_oStart sn /\
    tr_playing (transport (exec hiResTimerCallback s)) = tr_playing (transport s) /\
    g_playing (g (exec hiResTimerCallback s)) = true /\
    out (exec hiResTimerCallback s) =
      out s ++ [EvPosition (g_id (g s)) (Fin e)
                  (sanitizeTime (editedToOriginal (segments s) (Fin e)) (Fin 0))].
Proof.
  destruct (sanitizeTime_zero_range (tr_position (transport s))) as (p & Ep & _).
  rewrite Ep in Hfind, Hnear.
  destruct (contiguous_time_range _ _ _ _ _ Hfind Hc) as (e & Ee & H1 & H2 & He0 & He1).
  destruct (contFind_hit _ _ _ _ _ Hfind) as (Hod & _).
  exists e. contiguous_tick Hplay Hcont Hinit. rewrite Ep.
  destruct (segments s) as [|s0 rest] eqn:Es; [discriminate|].
  cbn [negb andb]. rewrite Hfind. cbv beta iota zeta.
  rewrite Hod, Hc, Ee, Hnear. rewrite Hnext, Hon.
  cbn -[sanitizeTime editedToOriginal]. rewrite Es.
  rewrite (sanitizeTime_in e) by assumption. auto 8.
Qed.

(** In contiguous mode, a tick within 50 ms of the end of the current
    segment, when no next segment with an original interval follows it in
    the list, still updates the edited playhead, then ends playback. *)
Theorem contiguous_last_segment_tick (s : Backend) (i : nat) (seg : Segment)
  (Hplay : g_playing (g s) = true) (Hcont : isContiguousTimeline s = true)
  (Hinit : contiguousInitialized s = true)
  (Hfind : contFind (segments s) (sanitizeTime (tr_position (transport s)) (Fin 0)) 0
           = Some (i, seg))
  (Hc : dle (c_cDur seg) (Fin 0) = false)
  (Hnear : dle (dsub (dadd (c_oStart seg) (c_oDur seg)) (Fin 0.05))
             (sanitizeTime (tr_position (transport s)) (Fin 0)) = true)
  (Hnext : match nth_error (segments s) (S i) with
           | Some sn => hasOriginal sn = false | None => True end) :
  exists e,
    g_editedSec (g (exec hiResTimerCallback s)) = Fin e /\
    dle (c_cStart seg) (Fin e) = true /\ dle (Fin e) (c_cEnd seg) = true /\
    tr_position (transport (exec hiResTimerCallback s)) = tr_position (transport s) /\
    tr_playing (transport (exec hiResTimerCallback s)) = false /\
    g_playing (g (exec hiResTimerCallback s)) = false /\
    out (exec hiResTimerCallback s) = out s ++ [EvEnded (g_id (g s))].
Proof.
  destruct (sanitizeTime_zero_range (tr_position (transport s))) as (p & Ep & _).
  rewrite Ep in Hfind, Hnear.
  destruct (contiguous_time_range _ _ _ _ _ Hfind Hc) as (e & Ee & H1 & H2 & He0 & He1).
  destruct (contFind_hit _ _ _ _ _ Hfind) as (Hod & _).
  exists e. contiguous_tick Hplay Hcont Hinit. rewrite Ep.
  destruct (segments s) as [|s0 rest] eqn:Es; [discriminate|].
  cbn [negb andb]. rewrite Hfind. cbv beta iota zeta.
  rewrite Hod, Hc, Ee, Hnear.
  destruct (nth_error (s0 :: rest) (S i)) as [sn|].
  - rewrite Hnext. cbn. auto 8.
  - cbn. auto 8.
Qed.

(** In contiguous mode, a tick at an original position that no segment's
    original interval holds jumps to the first segment (in list order)
    with an original interval starting after the position: the transport
    moves to that start and the edited playhead to the segment's edited
    start, and playback goes on; when there is no such segment, playback
    ends. *)
Theorem contiguous_gap_tick (s : Backend)
  (Hplay : g_playing (g s) = true) (Hcont : isContiguousTimeline s = true)
  (Hinit : contiguousInitialized s = true)
  (Hnone : contFind (segments s) (sanitizeTime (tr_position (transport s)) (Fin 0)) 0 = None) :
  match contNext (segments s) (sanitizeTime (tr_position (transport s)) (Fin 0)) with
  | Some sn =>
      tr_position (transport (exec hiResTimerCallback s)) = c_oStart sn /\
      g_editedSec (g (exec hiResTimerCallback s)) = sanitizeTime (seg_start sn) (Fin 0) /\
      g_playing (g (exec hiResTimerCallback s)) = true /\
      out (exec hiResTimerCallback s) =
        out s ++ [EvPosition (g_id (g s)) (sanitizeTime (seg_start sn) (Fin 0))
                    (sanitizeTime (editedToOriginal (segments s)
                                     (sanitizeTime (seg_start sn) (Fin 0))) (Fin 0))]
  | None =>
      tr_playing (transport (exec hiResTimerCallback s)) = false /\
      g_playing (g (exec hiResTimerCallback s)) = false /\
      out (exec hiResTimerCallback s) = out s ++ [EvEnded (g_id (g s))]
  end.
Proof.
  contiguous_tick Hplay Hcont Hinit.
  destruct (segments s) as [|s0 rest] eqn:Es.
  - cbn. auto.
  - cbn [negb andb]. rewrite Hnone.
    destruct (contNext (s0 :: rest) _) as [sn|]; cbn -[sanitizeTime editedToOriginal].
    + rewrite Es, sanitizeTime_idem. auto.
    + auto.
Qed.

Definition noSeg : Segment := mkSegment "" (Fin 0) (Fin 0) (Fin 0) "" minusOne minusOne.

(** [playingContiguous], initialised, with the transport at [t]. *)
Definition contiguousAt (t : Q) : Backend :=
  set_contiguousInitialized true (set_transport (mkTransport (Fin t) true (Fin 1)) playingContiguous).

(** A timeline in original order with a gap [0.4, 0.6) in the original
    audio. *)
Definition gapTimeline : list Segment :=
  [mkSegment "word" (Fin 0) (Fin 0.4) (Fin 0.4) "" (Fin 0) (Fin 0.4);
   mkSegment "word" (Fin 0.4) (Fin 0.8) (Fin 0.4) "" (Fin 0.6) (Fin 1.0)].

Lemma contiguous_advance_tick_witness :
  let s := contiguousAt 0.98 in
  let seg := nth 0 reorderTimeline noSeg in
  let sn := nth 1 reorderTimeline noSeg in
  exists e,
    g_editedSec (g (exec hiResTimerCallback s)) = Fin e /\
    dle (c_cStart seg) (Fin e) = true /\ dle (Fin e) (c_cEnd seg) = true /\
    tr_position (transport (exec hiResTimerCallback s)) = c_oStart sn /\
    tr_playing (transport (exec hiResTimerCallback s)) = tr_playing (transport s) /\
    g_playing (g (exec hiResTimerCallback s)) = true /\
    out (exec hiResTimerCallback s) =
      out s ++ [EvPosition (g_id (g s)) (Fin e)
                  (sanitizeTime (editedToOriginal (segments s) (Fin e)) (Fin 0))].
Proof.
  intros s seg sn. apply (contiguous_advance_tick s 0%nat seg sn); vm_compute; reflexivity.
Defined.

Lemma contiguous_last_segment_tick_witness :
  let s := contiguousAt 0.38 in
  let seg := nth 1 reorderTimeline noSeg in
  exists e,
    g_editedSec (g (exec hiResTimerCallback s)) = Fin e /\
    dle (c_cStart seg) (Fin e) = true /\ dle (Fin e) (c_cEnd seg) = true /\
    tr_position (transport (exec hiResTimerCallback s)) = tr_position (transport s) /\
    tr_playing (transport (exec hiResTimerCallback s)) = false /\
    g_playing (g (exec hiResTimerCallback s)) = false /\
    out (exec hiResTimerCallback s) = out s ++ [EvEnded (g_id (g s))].
Proof.
  intros s seg. apply (contiguous_last_segment_tick s 1%nat seg); vm_compute; try reflexivity; exact I.
Defined.

Lemma contiguous_gap_tick_witness :
  let s := set_segments gapTimeline (contiguousAt 0.5) in
  contNext (segments s) (sanitizeTime (tr_position (transport s)) (Fin 0)) =
    Some (nth 1 gapTimeline noSeg) /\
  match contNext (segments s) (sanitizeTime (tr_position (transport s)) (Fin 0)) with
  | Some sn =>
      tr_position (transport (exec hiResTimerCallback s)) = c_oStart sn /\
      g_editedSec (g (exec hiResTimerCallback s)) = sanitizeTime (seg_start sn) (Fin 0) /\
      g_playing (g (exec hiResTimerCallback s)) = true /\
      out (exec hiResTimerCallback s) =
        out s ++ [EvPosition (g_id (g s)) (sanitizeTime (seg_start sn) (Fin 0))
                    (sanitizeTime (editedToOriginal (segments s)
                                     (sanitizeTime (seg_start sn) (Fin 0))) (Fin 0))]
  | None =>
      tr_playing (transport (exec hiResTimerCallback s)) = false /\
      g_playing (g (exec hiResTimerCallback s)) = false /\
      out (exec hiResTimerCallback s) = out s ++ [EvEnded (g_id (g s))]
  end.
Proof.
  intro s. split; [vm_compute; reflexivity|].
  apply (contiguous_gap_tick s); vm_compute; reflexivity.
Defined.

(** The core of [standard_tick_ends], shared with the compositions below. *)
Lemma standard_tick_core (s : Backend) :
  g_playing (g s) = true -> isContiguousTimeline s = false ->
  segments s <> [] -> forallb validSeg (segments s) = true ->
  g_playing (g (exec hiResTimerCallback s)) = false /\
  tr_playing (transport (exec hiResTimerCallback s)) = false /\
  out (exec hiResTimerCallback s) = out s ++ [EvEnded (g_id (g s))].
Proof.
  intros Hplay Hstd Hne Hvalid.
  unfold exec, hiResTimerCallback, handleStandardTimelinePlayback.
  cbv beta iota zeta delta [bind get]. rewrite Hplay, Hstd. cbn [negb]. cbv beta iota.
  destruct (segments s) as [|front rest] eqn:Es; [congruence|].
  destruct (stdLoop_ends front (front :: rest) (sanitizeTime (tr_position (transport s)) (Fin 0))
              s (or_introl eq_refl) Hvalid) as (p & [H|H]); rewrite H; cbn; auto.
Qed.

Lemma exec_seq (m k : M unit) s : exec (m ;; k) s = exec k (exec m s).
Proof. unfold exec, bind. destruct (m s) as [[] s']. reflexivity. Qed.

(** The state a successful [load] leaves behind. *)
Lemma load_readable_eval s id sr len ch :
  0 < sr -> (0 < len)%Z -> inject_Z len / sr <= kMaxReasonableTime ->
  readerSource (exec (load id (Readable (Fin sr) len ch)) s) = true /\
  transport (exec (load id (Readable (Fin sr) len ch)) s) =
    mkTransport (Fin 0) false (tr_gain (transport s)) /\
  segments (exec (load id (Readable (Fin sr) len ch)) s) =
    [mkSegment "speech" (Fin 0) (Fin (inject_Z len / sr)) (Fin (inject_Z len / sr)) ""
       minusOne minusOne] /\
  g (exec (load id (Readable (Fin sr) len ch)) s) = mkG id false (Fin 0) (Fin (inject_Z len / sr)) /\
  isContiguousTimeline (exec (load id (Readable (Fin sr) len ch)) s) = isContiguousTimeline s /\
  timerIsRunning (exec (load id (Readable (Fin sr) len ch)) s) = timerIsRunning s /\
  out (exec (load id (Readable (Fin sr) len ch)) s) =
    out s ++ [EvLoaded id (Fin (inject_Z len / sr)) (Fin sr) ch; EvState id false].
Proof.
  intros Hsr Hlen Hd1. set (d := inject_Z len / sr) in *.
  assert (Hd : 0 < d).
  { subst d. apply Qlt_shift_div_l; [exact Hsr|]. rewrite Qmult_0_l.
    change 0 with (inject_Z 0). rewrite <- Zlt_Qlt. exact Hlen. }
  unfold exec, load.
  cbv beta iota zeta delta [bind get modify modify_g modify_transport emit emitState].
  simpl fst; simpl snd.
  rewrite !(Qltb_true 0 sr Hsr). cbv beta iota.
  assert ((0 <? len)%Z = true) as E2 by lia. rewrite E2. cbn [andb].
  rewrite (Qeq_bool_false_pos sr Hsr). fold d.
  rewrite (Qltb_true 0 d Hd). cbv beta iota.
  rewrite (sanitizeTime_in d) by lra. cbn. rewrite <- !app_assoc. auto 10.
Qed.

Lemma fullFile_valid d :
  kMinDuration <= d -> d <= kMaxReasonableTime ->
  forallb validSeg [mkSegment "speech" (Fin 0) (Fin d) (Fin d) "" minusOne minusOne] = true.
Proof.
  intros Hd0 Hd1. pose proof kMinDuration_pos as Hk.
  set (fs := mkSegment "speech" (Fin 0) (Fin d) (Fin d) "" minusOne minusOne).
  cbn [forallb]. rewrite andb_true_r. unfold validSeg.
  assert (finiteSeg fs = true) as -> by reflexivity.
  assert (seg_odur fs = Fin (d + - 0)) as ->.
  { unfold seg_odur, seg_os, seg_oe.
    assert (hasOriginal fs = false) as -> by reflexivity.
    rewrite (sanitizeTime_in d) by lra. rewrite (sanitizeTime_in 0) by lra.
    apply sanitizeDuration_ok. lra. }
  rewrite dle_fin_false by lra. reflexivity.
Qed.

(** The state [play] leaves behind when audio is loaded. *)
Lemma play_eval s :
  readerSource s = true ->
  segments (exec play s) = segments s /\
  g (exec play s) = set_g_playing true (g s) /\
  isContiguousTimeline (exec play s) = isContiguousTimeline s /\
  tr_playing (transport (exec play s)) = true /\
  out (exec play s) = out s ++ [EvState (g_id (g s)) true].
Proof.
  intro Hr. unfold exec, play, bind, get, modify, modify_g, modify_transport, emitState, emit.
  rewrite Hr. cbn. destruct (timerIsRunning s); cbn;
    (split; [|split; [|split; [|split]]]); reflexivity.
Qed.

(** In standard mode, the first timer tick after [load] of a file (of
    duration between 100 us and 24 h) and [play] ends playback: the default
    full-file segment holds the transport position, and the handler's only
    path for a position inside a segment ends playback. *)
Theorem load_play_tick_ends (s : Backend) (id : string) (sr : Q) (len ch : Z)
  (Hstd : isContiguousTimeline s = false)
  (Hsr : 0 < sr) (Hlen : (0 < len)%Z)
  (Hd0 : kMinDuration <= inject_Z len / sr) (Hd1 : inject_Z len / sr <= kMaxReasonableTime) :
  g_playing (g (exec (load id (Readable (Fin sr) len ch) ;; play ;; hiResTimerCallback) s)) = false /\
  tr_playing (transport (exec (load id (Readable (Fin sr) len ch) ;; play ;; hiResTimerCallback) s)) = false /\
  out (exec (load id (Readable (Fin sr) len ch) ;; play ;; hiResTimerCallback) s) =
    out s ++ [EvLoaded id (Fin (inject_Z len / sr)) (Fin sr) ch; EvState id false;
              EvState id true; EvEnded id].
Proof.
  rewrite !exec_seq.
  destruct (load_readable_eval s id sr len ch Hsr Hlen Hd1)
    as (Hr & _ & Hs & Hg & Hc & _ & Ho).
  destruct (play_eval _ Hr) as (Hs2 & Hg2 & Hc2 & _ & Ho2).
  pose proof (fullFile_valid _ Hd0 Hd1) as Hv.
  destruct (standard_tick_core (exec play (exec (load id (Readable (Fin sr) len ch)) s)))
    as (Hp3 & Ht3 & Ho3).
  - rewrite Hg2, Hg. reflexivity.
  - rewrite Hc2, Hc. exact Hstd.
  - rewrite Hs2, Hs. discriminate.
  - rewrite Hs2, Hs. exact Hv.
  - split; [exact Hp3|]. split; [exact Ht3|].
    rewrite Ho3, Hg2, Ho2, Hg, Ho. cbn. now rewrite <- !app_assoc.
Qed.

Lemma load_play_tick_ends_witness :
  g_playing (g (exec (load "a" (Readable (Fin 48000) 48000 2) ;; play ;; hiResTimerCallback) initialBackend)) = false /\
  tr_playing (transport (exec (load "a" (Readable (Fin 48000) 48000 2) ;; play ;; hiResTimerCallback) initialBackend)) = false /\
  out (exec (load "a" (Readable (Fin 48000) 48000 2) ;; play ;; hiResTimerCallback) initialBackend) =
    out initialBackend ++ [EvLoaded "a" (Fin (inject_Z 48000 / 48000)) (Fin 48000) 2; EvState "a" false;
              EvState "a" true; EvEnded "a"].
Proof.
  apply (load_play_tick_ends initialBackend "a" 48000 48000 2);
    unfold kMinDuration, kMaxReasonableTime; vm_compute; try reflexivity; intro; discriminate.
Defined.

Lemma ticks_idle n s : g_playing (g s) = false -> exec (ticks n) s = s.
Proof.
  revert s. induction n as [|k IH]; intros s H; [reflexivity|].
  cbn [ticks]. rewrite exec_seq.
  assert (exec hiResTimerCallback s = s) as ->.
  { unfold exec, hiResTimerCallback, bind, get. rewrite H. reflexivity. }
  now apply IH.
Qed.

(** [play] starts the timer and nothing stops it, but once audio is loaded
    a [pause] or a [stop] makes every later timer tick a no-op: the state
    and the emitted events stay those the command left. *)
Theorem paused_ticks_inert (s : Backend) (n : nat) (Hr : readerSource s = true) :
  exec (pause ;; ticks n) s = exec pause s /\ exec (stop ;; ticks n) s = exec stop s.
Proof.
  rewrite !exec_seq. split; apply ticks_idle;
    unfold exec, pause, stop, bind, get, modify, modify_g, modify_transport, emitState,
      emitPositionFromTransport, emit; rewrite Hr; reflexivity.
Qed.

Lemma paused_ticks_inert_witness :
  exec (pause ;; ticks 5) playingStandard = exec pause playingStandard /\
  exec (stop ;; ticks 5) playingStandard = exec stop playingStandard.
Proof. apply paused_ticks_inert. reflexivity. Defined.

Lemma str_append_assoc (a b c : string) : append (append a b) c = append a (append b c).
Proof. induction a as [|x a IH]; simpl; [reflexivity|]. now rewrite IH. Qed.

Lemma str_length_append (a b : string) :
  String.length (append a b) = (String.length a + String.length b)%nat.
Proof. induction a as [|x a IH]; simpl; [reflexivity|]. now rewrite IH. Qed.

Lemma index_shift (a s pat : string) n :
  index (String.length a + n) pat (append a s) =
  option_map (fun m => (String.length a + m)%nat) (index n pat s).
Proof.
  induction a as [|x a IH]; simpl.
  - now destruct (index n pat s).
  - rewrite IH. now destruct (index n pat s).
Qed.

(** The first quote of [v ++ quote ++ r] ends [v] when [v] has none. *)
Lemma index_quote (v r : string) :
  strHas quoteChar v = false ->
  index 0 quoteStr (append v (String quoteChar r)) = Some (String.length v).
Proof.
  induction v as [|c v IH]; intro H.
  - simpl. destruct r; reflexivity.
  - cbn [strHas] in H. apply orb_false_iff in H as [Hc Hv].
    apply Ascii.eqb_neq in Hc.
    cbn [append index]. unfold quoteStr at 1. cbn [prefix].
    destruct (ascii_dec quoteChar c) as [E|E]; [contradiction|].
    rewrite IH by exact Hv. reflexivity.
Qed.

Lemma substring_shift (a s : string) n m :
  substring (String.length a + n) m (append a s) = substring n m s.
Proof. induction a as [|x a IH]; simpl; [reflexivity|]. exact IH. Qed.

Lemma substring_prefix (v r : string) :
  substring 0 (String.length v) (append v r) = v.
Proof. induction v as [|x v IH]; simpl; [now destruct r|]. now rewrite IH. Qed.

Lemma get_shift (a s : string) n : String.get (String.length a + n) (append a s) = String.get n s.
Proof. induction a as [|x a IH]; simpl; [reflexivity|]. exact IH. Qed.

Lemma get_at (a s : string) c : String.get (String.length a) (append a (String c s)) = Some c.
Proof. induction a as [|x a IH]; simpl; [reflexivity|]. exact IH. Qed.

Lemma findFirstOf_shift chars (a s : string) n :
  findFirstOf chars (String.length a + n) (append a s) =
  option_map (fun m => (String.length a + m)%nat) (findFirstOf chars n s).
Proof.
  induction a as [|x a IH]; simpl.
  - now destruct (findFirstOf chars n s).
  - rewrite IH. now destruct (findFirstOf chars n s).
Qed.

Lemma findFirstOf_at chars (a s : string) :
  findFirstOf chars (String.length a) (append a s) =
  option_map (fun m => (String.length a + m)%nat) (findFirstOf chars 0 s).
Proof. rewrite <- findFirstOf_shift. now rewrite Nat.add_0_r. Qed.

Lemma substring_at (a s : string) m :
  substring (String.length a) m (append a s) = substring 0 m s.
Proof. rewrite <- (substring_shift a s 0). now rewrite Nat.add_0_r. Qed.

(** No character of [v] is a stop character. *)
Fixpoint noneOf (chars v : string) : bool :=
  match v with EmptyString => true | String c r => negb (strHas c chars) && noneOf chars r end.

Lemma findFirstOf_skip chars (v r : string) :
  noneOf chars v = true ->
  findFirstOf chars 0 (append v r) =
  option_map (fun m => (String.length v + m)%nat) (findFirstOf chars 0 r).
Proof.
  induction v as [|c v IH]; intro H; simpl.
  - now destruct (findFirstOf chars 0 r).
  - simpl in H. apply andb_true_iff in H as [Hc Hv]. apply negb_true_iff in Hc.
    rewrite Hc, IH by exact Hv. now destruct (findFirstOf chars 0 r).
Qed.

(** For a key whose first [\"key\":] in the line is followed by a quoted
    string without quotes, [extract] returns that string. *)
Theorem extract_quoted (key pre v rest : string)
  (Hfirst : index 0 (append quoteStr (append key (append quoteStr ":"%string)))
              (append pre (append (append quoteStr (append key (append quoteStr ":"%string)))
                 (append quoteStr (append v (append quoteStr rest)))))
            = Some (String.length pre))
  (Hv : strHas quoteChar v = false) :
  extract key (append pre (append (append quoteStr (append key (append quoteStr ":"%string)))
                 (append quoteStr (append v (append quoteStr rest))))) = v.
Proof.
  set (k := append quoteStr (append key (append quoteStr ":"%string))) in *.
  set (A := append pre k).
  assert (Eline : append pre (append k (append quoteStr (append v (append quoteStr rest)))) =
                  append A (String quoteChar (append v (String quoteChar rest))))
    by (unfold A; now rewrite str_append_assoc).
  unfold extract. fold k. rewrite Hfirst.
  assert (Ep : (String.length pre + String.length k)%nat = String.length A)
    by (unfold A; now rewrite str_length_append).
  rewrite Ep, Eline. clearbody A.
  set (Y := append v (String quoteChar rest)).
  rewrite str_length_append. cbn [String.length].
  assert (Nat.leb (String.length A + S (String.length Y)) (String.length A) = false) as ->
    by (apply Nat.leb_gt; lia).
  rewrite get_at, Ascii.eqb_refl.
  replace (S (String.length A)) with (String.length A + 1)%nat by lia.
  rewrite index_shift. cbn [index].
  unfold Y. rewrite (index_quote v rest Hv). cbn [option_map].
  replace (String.length A + S (String.length v) - (String.length A + 1))%nat
    with (String.length v) by lia.
  rewrite substring_shift. cbn [substring]. apply substring_prefix.
Qed.

(** For a key whose first ["key":] in the line is followed by an unquoted
    value (a first character other than a quote, no [,], [}] or newline in
    it) ending at a stop character or at the end of the line, [extract]
    returns that value. *)
Theorem extract_unquoted (key pre : string) (c : ascii) (w rest : string)
  (Hfirst : index 0 (append quoteStr (append key (append quoteStr ":"%string)))
              (append pre (append (append quoteStr (append key (append quoteStr ":"%string)))
                 (append (String c w) rest)))
            = Some (String.length pre))
  (Hc : Ascii.eqb c quoteChar = false)
  (Hnone : noneOf stopChars (String c w) = true)
  (Hrest : match rest with EmptyString => True | String d _ => strHas d stopChars = true end) :
  extract key (append pre (append (append quoteStr (append key (append quoteStr ":"%string)))
                 (append (String c w) rest))) = String c w.
Proof.
  set (k := append quoteStr (append key (append quoteStr ":"%string))) in *.
  set (A := append pre k).
  remember (String c w) as V eqn:EV.
  assert (Eline : append pre (append k (append V rest)) = append A (append V rest))
    by (unfold A; now rewrite str_append_assoc).
  unfold extract. fold k. rewrite Hfirst.
  assert (Ep : (String.length pre + String.length k)%nat = String.length A)
    by (unfold A; now rewrite str_length_append).
  rewrite Ep, Eline. clearbody A.
  assert (Hlen : Nat.leb (String.length (append A (append V rest))) (String.length A) = false).
  { apply Nat.leb_gt. rewrite !str_length_append, EV. cbn [String.length]. lia. }
  rewrite Hlen.
  assert (Hg : String.get (String.length A) (append A (append V rest)) = Some c)
    by (rewrite EV; cbn [append]; apply get_at).
  rewrite Hg, Hc.
  rewrite findFirstOf_at, (findFirstOf_skip _ _ _ Hnone).
  assert (He : match option_map (fun m => (String.length A + m)%nat)
                       (option_map (fun m => (String.length V + m)%nat)
                          (findFirstOf stopChars 0 rest)) with
               | None => String.length (append A (append V rest))
               | Some e => e end = (String.length A + String.length V + String.length rest
                                     - String.length rest)%nat).
  { destruct rest as [|d r].
    - cbn. rewrite !str_length_append. cbn [String.length]. lia.
    - cbn [findFirstOf]. rewrite Hrest. cbn [option_map]. cbn [String.length]. lia. }
  rewrite He.
  replace (String.length A + String.length V + String.length rest - String.length rest
           - String.length A)%nat with (String.length V) by lia.
  rewrite substring_at. apply substring_prefix.
Qed.

Local Open Scope string_scope.

(** [quoted s] is [s] between double quotes. *)
Definition quoted (s : string) : string := append quoteStr (append s quoteStr).

(** [{"type":"load",] and [{"type":"seek",]. *)
Definition typePrefix (t : string) : string :=
  append "{" (append (quoted "type") (append ":" (append (quoted t) ","))).

(** The command line [{"type":"load","id":"abc","path":"/x"}]: [extract "id"] is [abc]. *)
Lemma extract_quoted_witness :
  index 0 (append quoteStr (append "id" (append quoteStr ":"%string)))
    (append (typePrefix "load") (append (append quoteStr (append "id" (append quoteStr ":"%string)))
       (append quoteStr (append "abc" (append quoteStr (append "," (append (quoted "path") (append ":" (append (quoted "/x") "}")))))))))
  = Some (String.length (typePrefix "load")) /\
  extract "id"
    (append (typePrefix "load") (append (append quoteStr (append "id" (append quoteStr ":"%string)))
       (append quoteStr (append "abc" (append quoteStr (append "," (append (quoted "path") (append ":" (append (quoted "/x") "}")))))))))
  = "abc".
Proof.
  split; [vm_compute; reflexivity|].
  apply extract_quoted; vm_compute; reflexivity.
Defined.

(** The command line [{"type":"seek","t":12.5}]: [extract "t"] is [12.5]. *)
Lemma extract_unquoted_witness :
  index 0 (append quoteStr (append "t" (append quoteStr ":"%string)))
    (append (typePrefix "seek") (append (append quoteStr (append "t" (append quoteStr ":"%string)))
       (append (String "1"%char "2.5") "}")))
  = Some (String.length (typePrefix "seek")) /\
  extract "t"
    (append (typePrefix "seek") (append (append quoteStr (append "t" (append quoteStr ":"%string)))
       (append (String "1"%char "2.5") "}")))
  = String "1"%char "2.5".
Proof.
  split; [vm_compute; reflexivity|].
  apply extract_unquoted; vm_compute; exact I || reflexivity.
Defined.
